(** * Thoughtflow note store: tag suggestion, related notes, query filter
      and persistence

    A shallow embedding of the core of [note-app-deployable.tsx]: the helpers
    [loadNotes] and [saveNotes], and the closures [suggestTags],
    [findRelatedNotes], [handleNoteSave] and [filteredNotes] of the [NoteApp]
    component, together with the fragment of the JavaScript runtime they call
    (string and array methods, [JSON], [localStorage], [console]).

    Strings are Rocq [string]s, read as JavaScript strings all of whose code
    units are below 256 (Latin-1); on this range every string method used by
    the program acts code unit by code unit and is modelled exactly. *)

From Stdlib Require Import String Ascii List ZArith Lia Bool Sorting.Sorted.
From Stdlib Require Import Numbers.DecimalString Numbers.DecimalN Numbers.DecimalFacts.
From stdpp Require Import gmap strings sorting.
Import ListNotations.

Open Scope list_scope.

(** Appends of strings compute under [simpl], as appends of lists do. *)
#[local] Arguments String.append : simpl nomatch.

(* ********************************************************************* *)
(** * Part I. The program *)
(* ********************************************************************* *)

(* ===================================================================== *)
(** ** The JavaScript string and array methods used by the program *)
(* ===================================================================== *)

Module JS.

(** Code unit of a character. *)
Definition code (c : ascii) : N := N_of_ascii c.

(** [String.prototype.toLowerCase] on one Latin-1 code unit: the letters
    A-Z (65-90) and the accented capitals U+00C0-U+00DE, the multiplication
    sign U+00D7 apart, move up by 32; every other code unit is fixed. *)
Definition lower_char (c : ascii) : ascii :=
  let n := code c in
  if ((65 <=? n) && (n <=? 90))%N
     || ((192 <=? n) && (n <=? 222) && negb (n =? 215))%N
  then ascii_of_N (n + 32) else c.

(** [s.toLowerCase()] *)
Fixpoint toLowerCase (s : string) : string :=
  match s with
  | EmptyString => EmptyString
  | String c r => String (lower_char c) (toLowerCase r)
  end.

(** [p] is an initial segment of [s]. *)
Fixpoint startsWith (s p : string) {struct p} : bool :=
  match p, s with
  | EmptyString, _ => true
  | String _ _, EmptyString => false
  | String a p', String b s' => Ascii.eqb a b && startsWith s' p'
  end.

(** [s.includes(t)]: [t] occurs in [s] at some position. *)
Fixpoint includes (s t : string) : bool :=
  startsWith s t ||
  match s with
  | EmptyString => false
  | String _ r => includes r t
  end.

(** [s.split(sep)] for a one-character separator: the pieces between the
    occurrences of [sep]; the empty string gives one empty piece, and two
    adjacent separators give an empty piece between them. *)
Fixpoint split (sep : ascii) (s : string) : list string :=
  match s with
  | EmptyString => [EmptyString]
  | String c r =>
      if Ascii.eqb c sep then EmptyString :: split sep r
      else match split sep r with
           | w :: ws => String c w :: ws
           | [] => [String c EmptyString]
           end
  end.

(** The code units that [String.prototype.trim] strips (WhiteSpace and
    LineTerminator of ECMAScript) below 256: TAB, LF, VT, FF, CR, SP and
    NBSP. *)
Definition isWhiteSpace (c : ascii) : bool :=
  let n := code c in
  ((9 <=? n) && (n <=? 13) || (n =? 32) || (n =? 160))%N.

Fixpoint trimStart (s : string) : string :=
  match s with
  | EmptyString => EmptyString
  | String c r => if isWhiteSpace c then trimStart r else s
  end.

Fixpoint trimEnd (s : string) : string :=
  match s with
  | EmptyString => EmptyString
  | String c r =>
      match trimEnd r with
      | EmptyString => if isWhiteSpace c then EmptyString else String c EmptyString
      | r' => String c r'
      end
  end.

(** [s.trim()] *)
Definition trim (s : string) : string := trimEnd (trimStart s).

(** [s.slice(0, n)]: the first [n] code units, all of [s] when it is
    shorter. *)
Fixpoint slice0 (n : nat) (s : string) : string :=
  match n, s with
  | O, _ => EmptyString
  | S _, EmptyString => EmptyString
  | S n', String c r => String c (slice0 n' r)
  end.

(** Truthiness of a string in a condition: the empty string is falsy. *)
Definition truthy (s : string) : bool :=
  match s with EmptyString => false | String _ _ => true end.

(** [arr.includes(x)] on an array of strings. *)
Definition arr_includes (arr : list string) (x : string) : bool :=
  existsb (String.eqb x) arr.

(** [Number.isSafeInteger(n)] on an integer: the integers that a number
    represents exactly. *)
Definition isSafeInteger (n : Z) : bool := (Z.abs n <=? 2 ^ 53 - 1)%Z.

(** [set.add(x)] on a [Set] of strings, kept in insertion order (the order
    that [Array.from] reads back). *)
Definition set_add (x : string) (set : list string) : list string :=
  if arr_includes set x then set else set ++ [x].

End JS.

(* ===================================================================== *)
(** ** Data model *)
(* ===================================================================== *)

(** An entry of a note's [related] array: [{ id, preview }]. *)
Module Related.
Record t := mk { id : Z; preview : string }.
End Related.

(** A note: [{ id, content, timestamp, tags, related }]. *)
Module Note.
Record t := mk {
  id : Z;
  content : string;
  timestamp : string;
  tags : list string;
  related : list Related.t
}.
End Note.

(* ===================================================================== *)
(** ** The [JSON] object of the runtime *)
(* ===================================================================== *)

(** How an evaluation ends: with a value, or by throwing. *)
Inductive error : Type := SyntaxError.

Inductive completion (A : Type) : Type :=
| Normal (a : A)
| Throw (e : error).
Arguments Normal {A} a.
Arguments Throw {A} e.

(** [JSON.stringify] and [JSON.parse] on the values the program stores:
    [null], booleans, integral numbers, strings (of code units below 256),
    arrays, and objects as lists of properties in creation order.  A number
    with a fraction or an exponent, and a [\u] escape of a code unit above
    255, lie outside this fragment; [parse] does not accept them.  An
    integer beyond the safe range, which the runtime rounds, is kept exact
    here.  What is proved of [parse] is proved on serialised values with
    safe integers, or for every parser. *)
Module JSON.

#[local] Set Warnings "-register-all".

Inductive value : Type :=
| Null
| Bool (b : bool)
| Number (n : Z)
| Str (s : string)
| Array (elems : list value)
| Object (props : list (string * value)).

Definition dquote : ascii := "034"%char.
Definition backslash : ascii := "092"%char.

(** *** Serialisation *)

Definition hex_digit (n : N) : ascii :=
  if (n <? 10)%N then ascii_of_N (48 + n) else ascii_of_N (87 + n).

(** One code unit inside a string literal (QuoteJSONString): the short
    escapes for BS, TAB, LF, FF, CR, the quote and the backslash; a
    [\u00xx] escape for the other control characters; the code unit itself
    otherwise. *)
Definition escape_char (c : ascii) : string :=
  let n := JS.code c in
  if (n =? 8)%N then String backslash "b"
  else if (n =? 9)%N then String backslash "t"
  else if (n =? 10)%N then String backslash "n"
  else if (n =? 12)%N then String backslash "f"
  else if (n =? 13)%N then String backslash "r"
  else if (n =? 34)%N then String backslash (String dquote EmptyString)
  else if (n =? 92)%N then String backslash (String backslash EmptyString)
  else if (n <? 32)%N then
    String backslash
      (String "u" (String "0" (String "0"
         (String (hex_digit (n / 16)) (String (hex_digit (n mod 16)) EmptyString)))))
  else String c EmptyString.

Fixpoint escape (s : string) : string :=
  match s with
  | EmptyString => EmptyString
  | String c r => escape_char c +:+ escape r
  end.

Definition quote (s : string) : string :=
  String dquote (escape s +:+ String dquote EmptyString).

(** Decimal digits of a natural number, without leading zero. *)
Definition digits (n : N) : string := NilZero.string_of_uint (N.to_uint n).

(** [Number::toString] on an integer. *)
Definition number_to_string (n : Z) : string :=
  match n with
  | Z0 => "0"
  | Zpos p => digits (Npos p)
  | Zneg p => String "-" (digits (Npos p))
  end.

(** The items with a comma between neighbours. *)
Fixpoint commas (items : list string) : string :=
  match items with
  | [] => EmptyString
  | item :: rest =>
      match rest with
      | [] => item
      | _ :: _ => item +:+ String "," (commas rest)
      end
  end.

(** [JSON.stringify(v)], without indentation. *)
Fixpoint stringify (v : value) : string :=
  match v with
  | Null => "null"
  | Bool true => "true"
  | Bool false => "false"
  | Number n => number_to_string n
  | Str s => quote s
  | Array elems => String "[" (commas (map stringify elems) +:+ "]")
  | Object props =>
      String "{"
        (commas (map (fun p => quote (fst p) +:+ String ":" (stringify (snd p)))
                     props) +:+ "}")
  end.

(** *** Parsing *)

(** JSON whitespace: TAB, LF, CR, SP. *)
Definition is_ws (c : ascii) : bool :=
  let n := JS.code c in ((n =? 9) || (n =? 10) || (n =? 13) || (n =? 32))%N.

Fixpoint skip_ws (s : string) : string :=
  match s with
  | EmptyString => EmptyString
  | String c r => if is_ws c then skip_ws r else s
  end.

Definition is_digit (c : ascii) : bool :=
  let n := JS.code c in ((48 <=? n) && (n <=? 57))%N.

(** The longest run of digits at the head of [s], and what follows it. *)
Fixpoint span_digits (s : string) : string * string :=
  match s with
  | EmptyString => (EmptyString, EmptyString)
  | String c r =>
      if is_digit c
      then let '(ds, rest) := span_digits r in (String c ds, rest)
      else (EmptyString, s)
  end.

(** A digit run with a redundant leading zero is not a JSON number. *)
Definition leading_zero (ds : string) : bool :=
  match ds with
  | String c (String _ _) => Ascii.eqb c "0"
  | _ => false
  end.

(** A fraction or an exponent follows the integer part. *)
Definition fraction_follows (rest : string) : bool :=
  match rest with
  | String c _ => Ascii.eqb c "." || Ascii.eqb c "e" || Ascii.eqb c "E"
  | EmptyString => false
  end.

Definition parse_nat (s : string) : option (N * string) :=
  let '(ds, rest) := span_digits s in
  if leading_zero ds || fraction_follows rest then None
  else match NilZero.uint_of_string ds with
       | Some d => Some (N.of_uint d, rest)
       | None => None
       end.

Definition parse_number (s : string) : option (Z * string) :=
  match s with
  | EmptyString => None
  | String c r =>
      if Ascii.eqb c "-"
      then match parse_nat r with
           | Some (n, rest) => Some (Z.opp (Z.of_N n), rest)
           | None => None
           end
      else match parse_nat s with
           | Some (n, rest) => Some (Z.of_N n, rest)
           | None => None
           end
  end.

Definition hex_value (c : ascii) : option N :=
  let n := JS.code c in
  if ((48 <=? n) && (n <=? 57))%N then Some (n - 48)%N
  else if ((97 <=? n) && (n <=? 102))%N then Some (n - 87)%N
  else if ((65 <=? n) && (n <=? 70))%N then Some (n - 55)%N
  else None.

(** The code unit written [\u h1 h2 h3 h4], when it is below 256. *)
Definition hex4 (h1 h2 h3 h4 : ascii) : option ascii :=
  match hex_value h1, hex_value h2, hex_value h3, hex_value h4 with
  | Some a, Some b, Some c, Some d =>
      let n := (((a * 16 + b) * 16 + c) * 16 + d)%N in
      if (n <? 256)%N then Some (ascii_of_N n) else None
  | _, _, _, _ => None
  end.

(** The code unit of a one-letter escape. *)
Definition unescape (e : ascii) : option ascii :=
  if Ascii.eqb e dquote then Some dquote
  else if Ascii.eqb e backslash then Some backslash
  else if Ascii.eqb e "/" then Some "/"%char
  else if Ascii.eqb e "b" then Some "008"%char
  else if Ascii.eqb e "f" then Some "012"%char
  else if Ascii.eqb e "n" then Some "010"%char
  else if Ascii.eqb e "r" then Some "013"%char
  else if Ascii.eqb e "t" then Some "009"%char
  else None.

(** The body of a string literal, after its opening quote, up to and
    including the closing quote. *)
Fixpoint parse_string (s : string) : option (string * string) :=
  match s with
  | EmptyString => None
  | String c r =>
      if Ascii.eqb c dquote then Some (EmptyString, r)
      else if Ascii.eqb c backslash then
        match r with
        | EmptyString => None
        | String e r1 =>
            if Ascii.eqb e "u" then
              match r1 with
              | String h1 (String h2 (String h3 (String h4 r2))) =>
                  match hex4 h1 h2 h3 h4, parse_string r2 with
                  | Some ch, Some (str, rest) => Some (String ch str, rest)
                  | _, _ => None
                  end
              | _ => None
              end
            else
              match unescape e, parse_string r1 with
              | Some ch, Some (str, rest) => Some (String ch str, rest)
              | _, _ => None
              end
        end
      else if (JS.code c <? 32)%N then None
      else match parse_string r with
           | Some (str, rest) => Some (String c str, rest)
           | None => None
           end
  end.

(** [s] without its prefix [p]. *)
Fixpoint strip_prefix (p s : string) : option string :=
  match p with
  | EmptyString => Some s
  | String a p' =>
      match s with
      | EmptyString => None
      | String b s' => if Ascii.eqb a b then strip_prefix p' s' else None
      end
  end.

Definition parse_literal (s : string) : option (value * string) :=
  match strip_prefix "null" s, strip_prefix "true" s, strip_prefix "false" s with
  | Some rest, _, _ => Some (Null, rest)
  | None, Some rest, _ => Some (Bool true, rest)
  | None, None, Some rest => Some (Bool false, rest)
  | None, None, None => None
  end.

(** Defining property [key] of an object under construction: a key already
    present keeps its place and takes the new value. *)
Fixpoint define_property (key : string) (v : value)
    (props : list (string * value)) : list (string * value) :=
  match props with
  | [] => [(key, v)]
  | (k, w) :: rest =>
      if String.eqb k key then (k, v) :: rest
      else (k, w) :: define_property key v rest
  end.

(** Recursive descent.  [parse_value] reads one value; [parse_elements]
    reads the elements of a non-empty array up to its closing bracket;
    [parse_members] reads the members of a non-empty object up to its
    closing brace.  The fuel bounds the depth of the recursion. *)
Fixpoint parse_value (fuel : nat) (s : string) {struct fuel}
    : option (value * string) :=
  match fuel with
  | O => None
  | S fuel' =>
      match skip_ws s with
      | EmptyString => None
      | String c r =>
          if is_digit c || Ascii.eqb c "-" then
            match parse_number (String c r) with
            | Some (n, rest) => Some (Number n, rest)
            | None => None
            end
          else if Ascii.eqb c dquote then
            match parse_string r with
            | Some (str, rest) => Some (Str str, rest)
            | None => None
            end
          else if Ascii.eqb c "[" then
            match skip_ws r with
            | EmptyString => None
            | String c' r' =>
                if Ascii.eqb c' "]" then Some (Array [], r')
                else match parse_elements fuel' r with
                     | Some (elems, rest) => Some (Array elems, rest)
                     | None => None
                     end
            end
          else if Ascii.eqb c "{" then
            match skip_ws r with
            | EmptyString => None
            | String c' r' =>
                if Ascii.eqb c' "}" then Some (Object [], r')
                else match parse_members fuel' r [] with
                     | Some (props, rest) => Some (Object props, rest)
                     | None => None
                     end
            end
          else parse_literal (String c r)
      end
  end
with parse_elements (fuel : nat) (s : string) {struct fuel}
    : option (list value * string) :=
  match fuel with
  | O => None
  | S fuel' =>
      match parse_value fuel' s with
      | None => None
      | Some (v, r) =>
          match skip_ws r with
          | EmptyString => None
          | String c r' =>
              if Ascii.eqb c "," then
                match parse_elements fuel' r' with
                | Some (vs, rest) => Some (v :: vs, rest)
                | None => None
                end
              else if Ascii.eqb c "]" then Some ([v], r')
              else None
          end
      end
  end
with parse_members (fuel : nat) (s : string) (acc : list (string * value))
    {struct fuel} : option (list (string * value) * string) :=
  match fuel with
  | O => None
  | S fuel' =>
      match skip_ws s with
      | EmptyString => None
      | String q r =>
          if negb (Ascii.eqb q dquote) then None
          else
            match parse_string r with
            | None => None
            | Some (key, r1) =>
                match skip_ws r1 with
                | EmptyString => None
                | String colon r2 =>
                    if negb (Ascii.eqb colon ":") then None
                    else
                      match parse_value fuel' r2 with
                      | None => None
                      | Some (v, r3) =>
                          match skip_ws r3 with
                          | EmptyString => None
                          | String c r4 =>
                              if Ascii.eqb c "," then
                                parse_members fuel' r4 (define_property key v acc)
                              else if Ascii.eqb c "}" then
                                Some (define_property key v acc, r4)
                              else None
                          end
                      end
                end
            end
      end
  end.

(** [JSON.parse(text)]: one value, whitespace around it, nothing else; a
    [SyntaxError] otherwise.  A text of [n] characters never needs more
    fuel than [2 * n + 1]. *)
Definition parse (text : string) : completion value :=
  match parse_value (S (2 * String.length text)) text with
  | Some (v, rest) =>
      match skip_ws rest with
      | EmptyString => Normal v
      | String _ _ => Throw SyntaxError
      end
  | None => Throw SyntaxError
  end.

(** *** What the round trip is stated with *)

(** Fuel that [parse_value] needs to read back [stringify v]. *)
Fixpoint need (v : value) : nat :=
  match v with
  | Array elems => S (list_sum (map (fun e => S (need e)) elems))
  | Object props => S (list_sum (map (fun p => S (need (snd p))) props))
  | _ => 1
  end.

(** A key that reads as an array index: the engine enumerates such keys
    before the others, whatever the order of creation. *)
Definition index_like (key : string) : bool :=
  JS.truthy key && String.eqb (fst (span_digits key)) key.

(** The keys of [keys] are pairwise distinct and none is in [seen]. *)
Fixpoint fresh_keys (seen keys : list string) : bool :=
  match keys with
  | [] => true
  | k :: rest =>
      negb (JS.arr_includes seen k) && negb (JS.arr_includes rest k)
      && fresh_keys seen rest
  end.

(** The values whose serialisation this model renders exactly: numbers are
    safe integers, and the property list of every object is what the engine
    enumerates (distinct keys, none index-like). *)
Fixpoint well_formed (v : value) : bool :=
  match v with
  | Number n => JS.isSafeInteger n
  | Array elems => forallb well_formed elems
  | Object props =>
      fresh_keys [] (map fst props)
      && forallb (fun key => negb (index_like key)) (map fst props)
      && forallb (fun p => well_formed (snd p)) props
  | _ => true
  end.

(** What may follow a value inside a text: nothing, a comma, or a closing
    bracket or brace. *)
Definition closes (rest : string) : Prop :=
  match rest with
  | EmptyString => True
  | String c _ => c = ","%char \/ c = "]"%char \/ c = "}"%char
  end.

Section ValueInduction.
Variable P : value -> Prop.
Hypothesis HNull : P Null.
Hypothesis HBool : forall b, P (Bool b).
Hypothesis HNumber : forall n, P (Number n).
Hypothesis HStr : forall s, P (Str s).
Hypothesis HArray : forall elems, Forall P elems -> P (Array elems).
Hypothesis HObject :
  forall props, Forall (fun p => P (snd p)) props -> P (Object props).

Fixpoint value_nested_ind (v : value) : P v :=
  match v with
  | Null => HNull
  | Bool b => HBool b
  | Number n => HNumber n
  | Str s => HStr s
  | Array elems =>
      HArray elems
        ((fix all (l : list value) : Forall P l :=
            match l with
            | [] => @List.Forall_nil _ P
            | x :: r => @List.Forall_cons _ P x r (value_nested_ind x) (all r)
            end) elems)
  | Object props =>
      HObject props
        ((fix all (l : list (string * value))
            : Forall (fun p => P (snd p)) l :=
            match l with
            | [] => List.Forall_nil _
            | x :: r =>
                @List.Forall_cons _ (fun p => P (snd p)) x r
                  (value_nested_ind (snd x)) (all r)
            end) props)
  end.
End ValueInduction.

Fixpoint digit_string (s : string) : Prop :=
  match s with
  | EmptyString => True
  | String c r => is_digit c = true /\ digit_string r
  end.

(** [rest] does not continue a number. *)
Definition ends_number (rest : string) : Prop :=
  match rest with
  | EmptyString => True
  | String c _ => is_digit c = false /\ fraction_follows rest = false
  end.

Definition need_all (elems : list value) : nat :=
  list_sum (map (fun e => S (need e)) elems).

Definition need_members (props : list (string * value)) : nat :=
  list_sum (map (fun p => S (need (snd p))) props).

(** Reading one value back, the property proved by induction. *)
Definition reads_back (v : value) : Prop :=
  forall fuel rest, need v <= fuel -> closes rest ->
    parse_value fuel (stringify v +:+ rest) = Some (v, rest).

End JSON.

(* ===================================================================== *)
(** ** Tag suggester, related-note finder, query filter *)
(* ===================================================================== *)

(** The [keywords] table of [suggestTags], in the order [Object.entries]
    enumerates it. *)
Definition keywords : list (string * list string) :=
  [ ("meeting", ["meetings"; "work"]);
    ("task", ["tasks"; "todo"]);
    ("idea", ["ideas"; "creativity"]);
    ("research", ["research"; "learning"]);
    ("project", ["projects"; "work"]) ].

(** [tags.forEach(tag => set.add(tag))] *)
Definition add_all (tags : list string) (set : list string) : list string :=
  fold_left (fun acc tag => JS.set_add tag acc) tags set.

(** One turn of the outer [forEach] over the entries of [keywords]. *)
Definition suggest_step (contentLower : string) (suggestedTags : list string)
    (entry : string * list string) : list string :=
  let '(keyword, tags) := entry in
  if JS.includes contentLower keyword
  then add_all tags suggestedTags
  else suggestedTags.

(** [suggestTags]: the [Set] filled by the two nested [forEach] loops, read
    back by [Array.from]. *)
Definition suggestTags (content : string) : list string :=
  let contentLower := JS.toLowerCase content in
  fold_left (suggest_step contentLower) keywords [].

(** [findRelatedNotes], with the [notes] state it reads as an argument. *)
Definition findRelatedNotes (notes : list Note.t) (content : string)
    : list Related.t :=
  map (fun note =>
         Related.mk (Note.id note)
                    (JS.slice0 100 (Note.content note) +:+ "..."))
      (firstn 3
         (List.filter (fun note =>
            let contentWords := JS.split " " (JS.toLowerCase content) in
            let noteWords := JS.split " " (JS.toLowerCase (Note.content note)) in
            let commonWords :=
              List.filter (fun word =>
                 Nat.ltb 4 (String.length word) && JS.arr_includes noteWords word)
                contentWords in
            Nat.ltb 0 (List.length commonWords)) notes)).

(** [filteredNotes], with the component state it reads ([notes],
    [searchQuery], [selectedTags]) as arguments. *)
Definition filteredNotes (notes : list Note.t) (searchQuery : string)
    (selectedTags : list string) : list Note.t :=
  List.filter (fun note =>
    let matchesSearch :=
      forallb (fun term => JS.includes (JS.toLowerCase (Note.content note)) term)
              (JS.split " " (JS.toLowerCase searchQuery)) in
    let matchesTags :=
      Nat.eqb (List.length selectedTags) 0
      || existsb (fun tag => JS.arr_includes (Note.tags note) tag) selectedTags in
    matchesSearch && matchesTags) notes.

(* ===================================================================== *)
(** ** Note store: persistence and the save handler *)
(* ===================================================================== *)

Definition STORAGE_KEY : string := "thoughtflow_notes".

(** The JavaScript objects that notes are, with their properties in the
    order the object literals of [findRelatedNotes] and [handleNoteSave]
    create them. *)
Definition related_value (r : Related.t) : JSON.value :=
  JSON.Object [ ("id", JSON.Number (Related.id r));
                ("preview", JSON.Str (Related.preview r)) ].

Definition note_value (n : Note.t) : JSON.value :=
  JSON.Object [ ("id", JSON.Number (Note.id n));
                ("content", JSON.Str (Note.content n));
                ("timestamp", JSON.Str (Note.timestamp n));
                ("tags", JSON.Array (map JSON.Str (Note.tags n)));
                ("related", JSON.Array (map related_value (Note.related n))) ].

Definition notes_value (notes : list Note.t) : JSON.value :=
  JSON.Array (map note_value notes).

(** [loadNotes], reading [localStorage] (a missing key reads as [null]); the
    second component is what the call writes to [console.error]. *)
Definition loadNotes (localStorage : gmap string string)
    : completion JSON.value * list (string * error) :=
  let saved := localStorage !! STORAGE_KEY in
  match saved with
  | Some text =>
      if JS.truthy text then
        match JSON.parse text with
        | Normal parsed => (Normal parsed, [])
        | Throw e => (Normal (JSON.Array []), [("Error loading notes:", e)])
        end
      else (Normal (JSON.Array []), [])
  | None => (Normal (JSON.Array []), [])
  end.

(** [saveNotes]: [localStorage.setItem(STORAGE_KEY, JSON.stringify(notes))]. *)
Definition saveNotes (notes : JSON.value) (localStorage : gmap string string)
    : gmap string string :=
  <[STORAGE_KEY := JSON.stringify notes]> localStorage.

(** The state of the component that the core reads and writes, and the
    storage behind it. *)
Record State := mkState {
  notes : list Note.t;
  currentNote : string;
  showSuggestions : bool;
  localStorage : gmap string string
}.

(** A call of a state setter. *)
Inductive update : Type :=
| setNotes (value : list Note.t)
| setCurrentNote (value : string)
| setShowSuggestions (value : bool).

(** [handleNoteSave]: the setter calls it makes, given the readings
    [Date.now()] and [new Date().toISOString()] of the clock.  The timer
    that hides the suggestions three seconds later touches
    [showSuggestions] only and is left out. *)
Definition handleNoteSave (now : Z) (isoNow : string) (st : State)
    : list update :=
  if JS.truthy (JS.trim (currentNote st)) then
    let suggestedTags := suggestTags (currentNote st) in
    let relatedNotes := findRelatedNotes (notes st) (currentNote st) in
    let newNote :=
      Note.mk now (currentNote st) isoNow suggestedTags relatedNotes in
    [ setNotes (newNote :: notes st);
      setCurrentNote EmptyString;
      setShowSuggestions true ]
  else [].

Definition apply_update (st : State) (u : update) : State :=
  match u with
  | setNotes value =>
      mkState value (currentNote st) (showSuggestions st) (localStorage st)
  | setCurrentNote value =>
      mkState (notes st) value (showSuggestions st) (localStorage st)
  | setShowSuggestions value =>
      mkState (notes st) (currentNote st) value (localStorage st)
  end.

Definition sets_notes (u : update) : bool :=
  match u with setNotes _ => true | _ => false end.

(** The render that follows a handler: the queued updates are applied, and
    the effect that depends on [notes] runs [saveNotes] when [setNotes] was
    called (with a new array, as [handleNoteSave] does). *)
Definition commit (updates : list update) (st : State) : State :=
  let st' := fold_left apply_update updates st in
  if existsb sets_notes updates
  then mkState (notes st') (currentNote st') (showSuggestions st')
               (saveNotes (notes_value (notes st')) (localStorage st'))
  else st'.

(** What the user and the clock do in a session. *)
Inductive event : Type :=
| Typing (text : string)                 (* onChange of the textarea *)
| Save (now : Z) (isoNow : string).      (* the Save button, or Shift+Enter *)

Definition step (st : State) (ev : event) : State :=
  match ev with
  | Typing text => commit [setCurrentNote text] st
  | Save now isoNow => commit (handleNoteSave now isoNow st) st
  end.

Definition run (events : list event) (st : State) : State :=
  fold_left step events st.

(** The component mounted over an empty storage: [loadNotes] gives the empty
    array, and the effect on [notes] writes it back. *)
Definition fresh : State :=
  mkState [] EmptyString false (saveNotes (notes_value []) ∅).

Definition ids (st : State) : list Z := map Note.id (notes st).

(* ===================================================================== *)
(** ** The vocabulary of the statements *)
(* ===================================================================== *)

(** [t] occurs in [s]. *)
Definition Substring (t s : string) : Prop :=
  exists pre post, s = pre +:+ t +:+ post.

(** No code unit of [w] is the separator. *)
Fixpoint sep_free (sep : ascii) (w : string) : Prop :=
  match w with
  | EmptyString => True
  | String c r => c <> sep /\ sep_free sep r
  end.

(** The pieces joined again, with one separator between neighbours. *)
Fixpoint join (sep : ascii) (ws : list string) : string :=
  match ws with
  | [] => EmptyString
  | w :: ws' =>
      match ws' with
      | [] => w
      | _ :: _ => w +:+ String sep (join sep ws')
      end
  end.

(** [ws] are the pieces of [s] between the occurrences of [sep]. *)
Definition Pieces (sep : ascii) (ws : list string) (s : string) : Prop :=
  ws <> [] /\ Forall (sep_free sep) ws /\ join sep ws = s.

(** [out] keeps exactly the members of [l] that satisfy [P], in the order
    of [l]. *)
Inductive Selects {A : Type} (P : A -> Prop) : list A -> list A -> Prop :=
| Selects_nil : Selects P [] []
| Selects_keep x l out : P x -> Selects P l out -> Selects P (x :: l) (x :: out)
| Selects_drop x l out : ~ P x -> Selects P l out -> Selects P (x :: l) out.

(** The text criterion: every term of the lower-cased search phrase, cut at
    single spaces, occurs in the note's lower-cased content. *)
Definition TextCriterion (searchPhrase : string) (note : Note.t) : Prop :=
  forall terms, Pieces " " terms (JS.toLowerCase searchPhrase) ->
  forall term, In term terms ->
    Substring term (JS.toLowerCase (Note.content note)).

(** The tag criterion: nothing is selected, or the note carries a selected
    tag. *)
Definition TagCriterion (selectedTags : list string) (note : Note.t) : Prop :=
  selectedTags = [] \/ exists tag, In tag selectedTags /\ In tag (Note.tags note).

(** The candidate shares a long word with the content: some piece of the
    lower-cased content between single spaces has more than 4 characters and
    is one of the pieces of the candidate's lower-cased content. *)
Definition RelatedTo (content : string) (note : Note.t) : Prop :=
  exists words noteWords word,
    Pieces " " words (JS.toLowerCase content)
    /\ Pieces " " noteWords (JS.toLowerCase (Note.content note))
    /\ In word words /\ 4 < String.length word /\ In word noteWords.

(** The nine tags that occur in the table. *)
Definition vocabulary : list string :=
  ["meetings"; "work"; "tasks"; "todo"; "ideas"; "creativity";
   "research"; "learning"; "projects"].

(** The filter as the specification words it: the search phrase is split on
    whitespace ([String.words] cuts at TAB, LF, VT, FF, CR and SP). *)
Definition spec_filter (notes : list Note.t) (searchPhrase : string)
    (selectedTags : list string) : list Note.t :=
  List.filter (fun note =>
    forallb (fun term => JS.includes (JS.toLowerCase (Note.content note)) term)
            (String.words (JS.toLowerCase searchPhrase))
    && (Nat.eqb (List.length selectedTags) 0
        || existsb (fun tag => JS.arr_includes (Note.tags note) tag) selectedTags))
    notes.

(** The finder as the specification words it: both contents are split on
    whitespace ([String.words]). *)
Definition spec_findRelated (content : string) (corpus : list Note.t)
    : list Related.t :=
  map (fun note =>
         Related.mk (Note.id note)
                    (JS.slice0 100 (Note.content note) +:+ "..."))
      (firstn 3
         (List.filter (fun note =>
            existsb (fun word =>
               Nat.ltb 4 (String.length word)
               && JS.arr_includes (String.words (JS.toLowerCase (Note.content note))) word)
              (String.words (JS.toLowerCase content))) corpus)).

(** Every save reads a clock value above [floor] and above the reading of
    the save before it. *)
Fixpoint clock_increases (floor : Z) (events : list event) : Prop :=
  match events with
  | [] => True
  | Typing _ :: rest => clock_increases floor rest
  | Save now _ :: rest => (floor < now)%Z /\ clock_increases now rest
  end.

(** A string of whitespace only (the empty string included). *)
Fixpoint blank (s : string) : Prop :=
  match s with
  | EmptyString => True
  | String c r => JS.isWhiteSpace c = true /\ blank r
  end.

(** A well-formed note: its id and the ids of its related entries are safe
    integers (the other fields are strings, and arrays of strings). *)
Definition well_formed_note (n : Note.t) : bool :=
  JS.isSafeInteger (Note.id n)
  && forallb (fun r => JS.isSafeInteger (Related.id r)) (Note.related n).

(** The readings of [Date.now()] taken by the saves of a session. *)
Fixpoint save_times (events : list event) : list Z :=
  match events with
  | [] => []
  | Typing _ :: rest => save_times rest
  | Save now _ :: rest => now :: save_times rest
  end.

(** The key is absent from the storage. *)
Definition missing (localStorage : gmap string string) : Prop :=
  localStorage !! STORAGE_KEY = None.

(** The key holds a text that [JSON.parse] rejects. *)
Definition unparseable (localStorage : gmap string string) : Prop :=
  exists text e,
    localStorage !! STORAGE_KEY = Some text /\ JSON.parse text = Throw e.

(** Two notes to try the filter on. *)
Definition fruit_notes : list Note.t :=
  [ Note.mk 1 "apples oranges" "2024-01-01T00:00:00.000Z" ["fruit"] [];
    Note.mk 2 "bananas" "2024-01-02T00:00:00.000Z" ["fruit"] [] ].

(* ===================================================================== *)
(** ** Tag bar and keyboard shortcut *)
(* ===================================================================== *)

(** [arr.sort()] on an array of strings, with the default comparison: the
    strings in ascending order of their code units. *)
Definition sort_strings (arr : list string) : list string :=
  merge_sort String.le arr.

(** [allTags]: [Array.from(new Set(notes.flatMap(note => note.tags))).sort()]. *)
Definition allTags (notes : list Note.t) : list string :=
  sort_strings (add_all (flat_map Note.tags notes) []).

(** The [onClick] of a tag button: the array it passes to
    [setSelectedTags]. *)
Definition toggleTag (selectedTags : list string) (tag : string)
    : list string :=
  if JS.arr_includes selectedTags tag
  then List.filter (fun t => negb (String.eqb t tag)) selectedTags
  else selectedTags ++ [tag].

(** The fields of a keyboard event that [handleKeyDown] reads. *)
Record KeyboardEvent := mkKey { key : string; shiftKey : bool }.

(** [handleKeyDown]: whether it calls [e.preventDefault()], and the setter
    calls it makes through [handleNoteSave]. *)
Definition handleKeyDown (e : KeyboardEvent) (now : Z) (isoNow : string)
    (st : State) : bool * list update :=
  if String.eqb (key e) "Enter" && shiftKey e
  then (true, handleNoteSave now isoNow st)
  else (false, []).

(** The "AI Suggestions" card of the capture view: what it displays, the
    tags of [notes[0]] and the previews of its related entries, when
    [showSuggestions && notes.length > 0]; nothing otherwise. *)
Definition suggestionsCard (st : State) : option (list string * list string) :=
  if showSuggestions st && Nat.ltb 0 (List.length (notes st)) then
    match notes st with
    | note0 :: _ =>
        Some (Note.tags note0, map Related.preview (Note.related note0))
    | [] => None
    end
  else None.

(** Every note of the store carries the tags suggested for its own content
    and the related entries found for it among the notes older than it, and
    no note is blank. *)
Fixpoint store_ok (store : list Note.t) : Prop :=
  match store with
  | [] => True
  | n :: older =>
      Note.tags n = suggestTags (Note.content n)
      /\ Note.related n = findRelatedNotes older (Note.content n)
      /\ ~ blank (Note.content n)
      /\ store_ok older
  end.

(** The [key] props of the note cards of the capture view:
    [filteredNotes.map((note) => <Card key={note.id} ...>)].  React
    identifies the cards of the list by these keys. *)
Definition card_keys (st : State) (searchQuery : string)
    (selectedTags : list string) : list Z :=
  map Note.id (filteredNotes (notes st) searchQuery selectedTags).


(** The storage holds the serialisation of the notes of the state. *)
Definition synced (st : State) : Prop :=
  localStorage st !! STORAGE_KEY
  = Some (JSON.stringify (notes_value (notes st))).

(* ********************************************************************* *)
(** * Part II. What the program does *)
(* ********************************************************************* *)

(* ===================================================================== *)
(** ** The string methods *)
(* ===================================================================== *)

Lemma startsWith_spec (s p : string) :
  JS.startsWith s p = true <-> exists post, s = p +:+ post.
Proof.
  revert s. induction p as [|a p IH]; intros s; simpl.
  - split; [intros _; exists s; reflexivity | reflexivity].
  - destruct s as [|b s].
    + split; [discriminate | intros [post H]; discriminate].
    + rewrite andb_true_iff, Ascii.eqb_eq, IH. split.
      * intros [-> [post ->]]. exists post. reflexivity.
      * intros [post H]. injection H as -> ->. split; [reflexivity | eauto].
Qed.

Lemma includes_spec (s t : string) :
  JS.includes s t = true <-> Substring t s.
Proof.
  unfold Substring. induction s as [|c s IH]; simpl.
  - rewrite orb_false_r, startsWith_spec. split.
    + intros [post H]. exists EmptyString, post. exact H.
    + intros [pre [post H]]. destruct pre; [eauto | discriminate].
  - rewrite orb_true_iff, IH. split.
    + intros [H | [pre [post ->]]].
      * apply (startsWith_spec (String c s) t) in H. destruct H as [post H].
        exists EmptyString, post. exact H.
      * exists (String c pre), post. reflexivity.
    + intros [pre [post H]]. destruct pre as [|a pre].
      * left. apply (startsWith_spec (String c s) t). exists post. exact H.
      * right. injection H as _ ->. eauto.
Qed.

Lemma split_nonempty (sep : ascii) (s : string) : JS.split sep s <> [].
Proof.
  destruct s as [|c r]; simpl; [discriminate|].
  destruct (Ascii.eqb c sep); [discriminate|].
  destruct (JS.split sep r); discriminate.
Qed.

Lemma split_pieces (sep : ascii) (s : string) : Pieces sep (JS.split sep s) s.
Proof.
  split; [apply split_nonempty|].
  induction s as [|c r [IHf IHj]]; simpl.
  - split; [repeat constructor | reflexivity].
  - destruct (Ascii.eqb_spec c sep) as [->|Hne].
    + split; [constructor; [exact I | exact IHf]|].
      pose proof (split_nonempty sep r) as Hn.
      destruct (JS.split sep r); [contradiction|]. simpl. f_equal. exact IHj.
    + pose proof (split_nonempty sep r) as Hn.
      destruct (JS.split sep r) as [|w ws]; [contradiction|].
      inversion IHf; subst. split.
      * constructor; [split; assumption | assumption].
      * simpl in *. destruct ws; simpl; f_equal; exact IHj.
Qed.

Lemma split_join (sep : ascii) (ws : list string) :
  ws <> [] -> Forall (sep_free sep) ws -> JS.split sep (join sep ws) = ws.
Proof.
  induction ws as [|w ws IH]; [contradiction|]. intros _ Hf.
  inversion Hf as [|? ? Hw Hws]; subst.
  assert (Hone : forall u, sep_free sep u -> JS.split sep u = [u]).
  { induction u as [|c u IHu]; [reflexivity|]. intros [Hc Hu]. simpl.
    destruct (Ascii.eqb_spec c sep); [contradiction|]. rewrite (IHu Hu). reflexivity. }
  destruct ws as [|w' ws'].
  - simpl. apply Hone, Hw.
  - assert (Hrest : JS.split sep (join sep (w' :: ws')) = w' :: ws')
      by (apply IH; [discriminate | exact Hws]).
    change (join sep (w :: w' :: ws')) with (w +:+ String sep (join sep (w' :: ws'))).
    clear IH Hf. induction w as [|c u IHu]; simpl.
    + rewrite Ascii.eqb_refl. f_equal. exact Hrest.
    + destruct Hw as [Hc Hu]. destruct (Ascii.eqb_spec c sep); [contradiction|].
      specialize (IHu Hu). simpl in IHu. rewrite IHu. reflexivity.
Qed.

(** [split] is the only way to cut a string into pieces. *)
Lemma pieces_unique (sep : ascii) (ws : list string) (s : string) :
  Pieces sep ws s -> ws = JS.split sep s.
Proof. intros (Hn & Hf & <-). symmetry. apply split_join; assumption. Qed.

Lemma arr_includes_spec (arr : list string) (x : string) :
  JS.arr_includes arr x = true <-> In x arr.
Proof.
  unfold JS.arr_includes. rewrite existsb_exists. split.
  - intros [y [Hy He]]. apply String.eqb_eq in He. subst. exact Hy.
  - intros H. exists x. split; [exact H | apply String.eqb_refl].
Qed.

Lemma filter_Selects {A : Type} (f : A -> bool) (P : A -> Prop) (l : list A) :
  (forall x, f x = true <-> P x) -> Selects P l (List.filter f l).
Proof.
  intros Hf. induction l as [|x l IH]; simpl; [constructor|].
  destruct (f x) eqn:E.
  - apply Selects_keep; [apply Hf, E | exact IH].
  - apply Selects_drop; [|exact IH]. intros HP. apply Hf in HP. congruence.
Qed.

(** A selection is determined by the property. *)
Lemma Selects_functional {A : Type} (P : A -> Prop) (l o1 o2 : list A) :
  Selects P l o1 -> Selects P l o2 -> o1 = o2.
Proof.
  intros H1. revert o2. induction H1; intros o2 H2; inversion H2; subst;
    try contradiction; try reflexivity; [f_equal|]; auto.
Qed.

(* ===================================================================== *)
(** ** Query filter *)
(* ===================================================================== *)

Lemma includes_empty (s : string) : JS.includes s EmptyString = true.
Proof. destruct s; reflexivity. Qed.

(** C7. Filtering with the empty search phrase and no selected tag returns
    the notes unchanged. *)
Theorem filteredNotes_identity (notes : list Note.t) :
  filteredNotes notes EmptyString [] = notes.
Proof.
  unfold filteredNotes. induction notes as [|n ns IH]; [reflexivity|].
  simpl. rewrite includes_empty. simpl. f_equal. exact IH.
Qed.

Lemma matchesSearch_spec (searchQuery : string) (note : Note.t) :
  forallb (fun term => JS.includes (JS.toLowerCase (Note.content note)) term)
          (JS.split " " (JS.toLowerCase searchQuery)) = true
  <-> TextCriterion searchQuery note.
Proof.
  rewrite forallb_forall. unfold TextCriterion. split.
  - intros H terms Hp term Hin. apply pieces_unique in Hp. subst terms.
    apply includes_spec, H, Hin.
  - intros H term Hin. apply includes_spec.
    apply (H _ (split_pieces " " _) term Hin).
Qed.

Lemma matchesTags_spec (selectedTags : list string) (note : Note.t) :
  Nat.eqb (List.length selectedTags) 0
  || existsb (fun tag => JS.arr_includes (Note.tags note) tag) selectedTags = true
  <-> TagCriterion selectedTags note.
Proof.
  unfold TagCriterion. rewrite orb_true_iff, existsb_exists. split.
  - intros [H | [tag [Hin Ht]]].
    + left. destruct selectedTags; [reflexivity | discriminate].
    + right. exists tag. split; [exact Hin | apply arr_includes_spec, Ht].
  - intros [-> | [tag [Hin Ht]]]; [left; reflexivity|].
    right. exists tag. split; [exact Hin | apply arr_includes_spec, Ht].
Qed.

(** C1 (as the code has it). The query filter returns exactly the notes, in
    input order, for which every term of the lower-cased search phrase, the
    phrase being cut at each single space character, occurs in the note's
    lower-cased content, and for which no tag is selected or the note carries
    a selected tag. *)
Theorem filteredNotes_spec (notes : list Note.t) (searchPhrase : string)
    (selectedTags : list string) :
  Selects (fun note => TextCriterion searchPhrase note /\ TagCriterion selectedTags note)
          notes (filteredNotes notes searchPhrase selectedTags).
Proof.
  unfold filteredNotes. apply filter_Selects. intros note. cbv zeta.
  rewrite andb_true_iff, matchesSearch_spec, matchesTags_spec. reflexivity.
Qed.

Example filter_apple :
  map Note.id (filteredNotes fruit_notes "apple" []) = [1%Z].
Proof. reflexivity. Qed.

Example filter_fruit_tag :
  filteredNotes fruit_notes EmptyString ["fruit"] = fruit_notes.
Proof. reflexivity. Qed.

Example filter_unknown_tag :
  filteredNotes fruit_notes EmptyString ["unknown"] = [].
Proof. reflexivity. Qed.

(** C1 (as stated) fails: a search phrase whose two terms are separated by a
    TAB is one term for the code, which then rejects a note containing both
    terms. *)
Lemma filteredNotes_whitespace_counterexample :
  let notes := [Note.mk 1 "alpha beta" "2024-01-01T00:00:00.000Z" [] []] in
  let searchPhrase := "alpha" +:+ String "009" "beta" in
  spec_filter notes searchPhrase [] = notes
  /\ filteredNotes notes searchPhrase [] = [].
Proof. split; reflexivity. Qed.

(* ===================================================================== *)
(** ** Related-note finder *)
(* ===================================================================== *)

Lemma related_test_spec (content : string) (note : Note.t) :
  Nat.ltb 0 (List.length
    (List.filter (fun word =>
       Nat.ltb 4 (String.length word)
       && JS.arr_includes (JS.split " " (JS.toLowerCase (Note.content note))) word)
      (JS.split " " (JS.toLowerCase content)))) = true
  <-> RelatedTo content note.
Proof.
  unfold RelatedTo. split.
  - intros H. apply Nat.ltb_lt in H.
    destruct (List.filter _ _) as [|word rest] eqn:E; [simpl in H; lia|].
    assert (Hin : In word (word :: rest)) by (left; reflexivity).
    rewrite <- E in Hin. apply filter_In in Hin. destruct Hin as [Hin Ht].
    apply andb_true_iff in Ht. destruct Ht as [Hlen Hmem].
    exists (JS.split " " (JS.toLowerCase content)),
           (JS.split " " (JS.toLowerCase (Note.content note))), word.
    repeat split; try apply split_pieces; try assumption.
    + apply Nat.ltb_lt, Hlen.
    + apply arr_includes_spec, Hmem.
  - intros (words & noteWords & word & Hw & Hn & Hin & Hlen & Hmem).
    apply pieces_unique in Hw, Hn. subst words noteWords.
    apply Nat.ltb_lt.
    assert (Hf : In word (List.filter (fun word =>
       Nat.ltb 4 (String.length word)
       && JS.arr_includes (JS.split " " (JS.toLowerCase (Note.content note))) word)
      (JS.split " " (JS.toLowerCase content)))).
    { apply filter_In. split; [exact Hin|]. apply andb_true_iff. split.
      - apply Nat.ltb_lt, Hlen.
      - apply arr_includes_spec, Hmem. }
    destruct (List.filter _ _); [contradiction | simpl; lia].
Qed.

Lemma Forall2_map_self {A B : Type} (f : A -> B) (R : A -> B -> Prop) (l : list A) :
  (forall x, R x (f x)) -> Forall2 R l (map f l).
Proof. intros H. induction l; simpl; constructor; auto. Qed.

(** C2 (as the code has it). The related-note finder returns, in corpus
    order, the first at most 3 candidates that share with the content a
    lower-cased word of more than 4 characters, words being the pieces
    between single space characters; it never returns more than 3 entries. *)
Theorem findRelatedNotes_spec (notes : list Note.t) (content : string) :
  exists matching,
    Selects (RelatedTo content) notes matching
    /\ Forall2 (fun note entry => Related.id entry = Note.id note)
               (firstn 3 matching) (findRelatedNotes notes content)
    /\ List.length (findRelatedNotes notes content) <= 3.
Proof.
  unfold findRelatedNotes.
  set (test := fun note : Note.t => Nat.ltb 0 (List.length _)).
  exists (List.filter test notes). split; [|split].
  - apply filter_Selects. intros note. apply related_test_spec.
  - apply Forall2_map_self. reflexivity.
  - rewrite length_map. apply firstn_le_length.
Qed.

Example findRelated_elephants :
  findRelatedNotes
    [Note.mk 5 "elephants are huge" "2024-01-01T00:00:00.000Z" [] []]
    "I love elephants"
  = [Related.mk 5 "elephants are huge..."].
Proof. reflexivity. Qed.

(** C2 (as stated) fails: in a content of two lines the line break does not
    separate words for the code, so the word shared with the candidate is
    not found. *)
Lemma findRelatedNotes_whitespace_counterexample :
  let corpus := [Note.mk 5 "hello there" "2024-01-01T00:00:00.000Z" [] []] in
  let content := "hello" +:+ String "010" "world" in
  spec_findRelated content corpus = [Related.mk 5 "hello there..."]
  /\ findRelatedNotes corpus content = [].
Proof. split; reflexivity. Qed.

Lemma slice0_split (n : nat) (s : string) :
  exists tail, s = JS.slice0 n s +:+ tail
               /\ String.length (JS.slice0 n s) = Nat.min n (String.length s).
Proof.
  revert s. induction n as [|n IH]; intros s.
  - exists s. split; reflexivity.
  - destruct s as [|c r].
    + exists EmptyString. split; reflexivity.
    + destruct (IH r) as [tail [Ht Hl]]. exists tail. simpl. split.
      * f_equal. exact Ht.
      * f_equal. exact Hl.
Qed.

Lemma slice0_short (n : nat) (s : string) :
  String.length s <= n -> JS.slice0 n s = s.
Proof.
  revert s. induction n as [|n IH]; intros s H.
  - destruct s; [reflexivity | simpl in H; lia].
  - destruct s as [|c r]; [reflexivity|]. simpl in *. f_equal. apply IH. lia.
Qed.

Lemma Selects_In {A : Type} (P : A -> Prop) (l out : list A) (x : A) :
  Selects P l out -> In x out -> In x l /\ P x.
Proof.
  induction 1 as [|y l out Hy Hs IH|y l out Hy Hs IH]; simpl.
  - contradiction.
  - intros [<- | Hin]; [split; [left; reflexivity | exact Hy]|].
    destruct (IH Hin). split; [right|]; assumption.
  - intros Hin. destruct (IH Hin). split; [right|]; assumption.
Qed.

(** C8. Every entry returned by the finder carries the id of a related
    candidate of the corpus, and its preview is the first 100 characters of
    that candidate's content (all of it when it is shorter) followed by the
    ellipsis marker, which is appended also when nothing was cut off. *)
Theorem findRelatedNotes_entries (notes : list Note.t) (content : string)
    (entry : Related.t) :
  In entry (findRelatedNotes notes content) ->
  exists note,
    In note notes /\ RelatedTo content note
    /\ Related.id entry = Note.id note
    /\ (exists head tail,
          Note.content note = head +:+ tail
          /\ String.length head = Nat.min 100 (String.length (Note.content note))
          /\ Related.preview entry = head +:+ "...")
    /\ (String.length (Note.content note) <= 100 ->
        Related.preview entry = Note.content note +:+ "...").
Proof.
  unfold findRelatedNotes.
  set (test := fun note : Note.t => Nat.ltb 0 (List.length _)).
  intros Hin. apply in_map_iff in Hin. destruct Hin as [note [<- Hin]].
  assert (Hsel : Selects (RelatedTo content) notes (List.filter test notes))
    by (apply filter_Selects; intros n; apply related_test_spec).
  assert (Hnote : In note (List.filter test notes)).
  { rewrite <- (firstn_skipn 3 (List.filter test notes)). apply in_or_app. left. exact Hin. }
  destruct (Selects_In _ _ _ _ Hsel Hnote) as [Hmem Hrel].
  exists note. cbn [Related.id Related.preview]. repeat split; try assumption.
  - destruct (slice0_split 100 (Note.content note)) as [tail [Ht Hl]].
    exists (JS.slice0 100 (Note.content note)), tail. repeat split; assumption.
  - intros Hshort. rewrite slice0_short by exact Hshort. reflexivity.
Qed.

Lemma findRelatedNotes_entries_witness :
  exists note,
    In note [Note.mk 5 "elephants are huge" "2024-01-01T00:00:00.000Z" [] []]
    /\ RelatedTo "I love elephants" note
    /\ Related.id (Related.mk 5 "elephants are huge...") = Note.id note
    /\ (exists head tail,
          Note.content note = head +:+ tail
          /\ String.length head = Nat.min 100 (String.length (Note.content note))
          /\ Related.preview (Related.mk 5 "elephants are huge...") = head +:+ "...")
    /\ (String.length (Note.content note) <= 100 ->
        Related.preview (Related.mk 5 "elephants are huge...")
        = Note.content note +:+ "...").
Proof.
  apply (findRelatedNotes_entries
           [Note.mk 5 "elephants are huge" "2024-01-01T00:00:00.000Z" [] []]
           "I love elephants").
  simpl. left. reflexivity.
Defined.

(* ===================================================================== *)
(** ** Tag suggester *)
(* ===================================================================== *)

Lemma set_add_In (x y : string) (set : list string) :
  In y (JS.set_add x set) <-> In y set \/ y = x.
Proof.
  unfold JS.set_add. destruct (JS.arr_includes set x) eqn:E.
  - apply arr_includes_spec in E. split; [auto|]. intros [H | ->]; assumption.
  - rewrite in_app_iff. simpl. intuition congruence.
Qed.

Lemma set_add_NoDup (x : string) (set : list string) :
  List.NoDup set -> List.NoDup (JS.set_add x set).
Proof.
  intros Hnd. unfold JS.set_add. destruct (JS.arr_includes set x) eqn:E; [exact Hnd|].
  assert (Hx : ~ In x set).
  { intros Hin. apply arr_includes_spec in Hin. congruence. }
  clear E. induction set as [|a set IH]; simpl.
  - constructor; [intros [] | constructor].
  - inversion Hnd as [|? ? Ha Hset]; subst. constructor.
    + rewrite in_app_iff. simpl. intros [H | [H | []]]; [contradiction|].
      subst. apply Hx. left. reflexivity.
    + apply IH; [exact Hset|]. intros H. apply Hx. right. exact H.
Qed.

Lemma add_all_In (tags set : list string) (y : string) :
  In y (add_all tags set) <-> In y set \/ In y tags.
Proof.
  unfold add_all. revert set. induction tags as [|t tags IH]; intros set; simpl.
  - intuition.
  - rewrite IH, set_add_In. intuition congruence.
Qed.

Lemma add_all_NoDup (tags set : list string) :
  List.NoDup set -> List.NoDup (add_all tags set).
Proof.
  unfold add_all. revert set. induction tags as [|t tags IH]; intros set H; simpl.
  - exact H.
  - apply IH, set_add_NoDup, H.
Qed.

Section SuggestLoop.
Variable contentLower : string.

Lemma suggest_loop_In (table : list (string * list string))
    (set : list string) (tag : string) :
  In tag (fold_left (suggest_step contentLower) table set)
  <-> In tag set
      \/ exists keyword tags,
           In (keyword, tags) table
           /\ Substring keyword contentLower /\ In tag tags.
Proof.
  revert set. induction table as [|[keyword tags] table IH]; intros set; simpl.
  - split; [auto|]. intros [H | (k & ts & [] & _)]. exact H.
  - rewrite IH. destruct (JS.includes contentLower keyword) eqn:E.
    + apply includes_spec in E. rewrite add_all_In. split.
      * intros [[H | H] | (k & ts & Hin & Hs & Ht)]; [auto | |].
        -- right. exists keyword, tags. auto.
        -- right. exists k, ts. auto.
      * intros [H | (k & ts & [Heq | Hin] & Hs & Ht)]; [auto | |].
        -- injection Heq as <- <-. auto.
        -- right. exists k, ts. auto.
    + split.
      * intros [H | (k & ts & Hin & Hs & Ht)]; [auto|].
        right. exists k, ts. auto.
      * intros [H | (k & ts & [Heq | Hin] & Hs & Ht)]; [auto | |].
        -- injection Heq as <- <-. apply includes_spec in Hs. congruence.
        -- right. exists k, ts. auto.
Qed.

Lemma suggest_loop_NoDup (table : list (string * list string))
    (set : list string) :
  List.NoDup set -> List.NoDup (fold_left (suggest_step contentLower) table set).
Proof.
  revert set. induction table as [|[keyword tags] table IH]; intros set H; simpl.
  - exact H.
  - apply IH. destruct (JS.includes contentLower keyword); [|exact H].
    apply add_all_NoDup, H.
Qed.
End SuggestLoop.

Lemma suggestTags_In (content tag : string) :
  In tag (suggestTags content)
  <-> exists keyword tags,
        In (keyword, tags) keywords
        /\ Substring keyword (JS.toLowerCase content) /\ In tag tags.
Proof.
  unfold suggestTags. cbv zeta. rewrite suggest_loop_In. simpl. intuition.
Qed.

(** C3. The suggester lower-cases the content and returns the union of the
    tag lists of exactly those trigger keywords (meeting, task, idea,
    research, project) that occur as a substring of it; "Team meeting notes"
    yields both "meetings" and "work", and "no keywords here" yields
    nothing. *)
Theorem suggestTags_spec :
  map fst keywords = ["meeting"; "task"; "idea"; "research"; "project"]
  /\ (forall content tag,
        In tag (suggestTags content)
        <-> exists keyword tags,
              In (keyword, tags) keywords
              /\ Substring keyword (JS.toLowerCase content) /\ In tag tags)
  /\ In "meetings" (suggestTags "Team meeting notes")
  /\ In "work" (suggestTags "Team meeting notes")
  /\ suggestTags "no keywords here" = [].
Proof.
  split; [reflexivity|]. split; [exact suggestTags_In|].
  repeat split; vm_compute; auto.
Qed.

(** C10. Whatever the content, the suggested tags lie in the nine-tag
    vocabulary and no tag is suggested twice. *)
Theorem suggestTags_vocabulary (content : string) :
  List.length vocabulary = 9
  /\ incl (suggestTags content) vocabulary
  /\ List.NoDup (suggestTags content).
Proof.
  split; [reflexivity|]. split.
  - intros tag Hin. apply suggestTags_In in Hin.
    destruct Hin as (keyword & tags & Hk & _ & Ht).
    unfold keywords in Hk. simpl in Hk.
    repeat (destruct Hk as [Hk | Hk]; [injection Hk as <- <-; simpl in Ht; unfold vocabulary; simpl; intuition|]).
    contradiction.
  - unfold suggestTags. cbv zeta. apply suggest_loop_NoDup. constructor.
Qed.

(* ===================================================================== *)
(** ** Serialisation round trip *)
(* ===================================================================== *)

Module JSONFacts.
Import JSON.

Lemma app_assoc_s (a b c : string) : (a +:+ b) +:+ c = a +:+ (b +:+ c).
Proof. induction a as [|x a IH]; simpl; [reflexivity | f_equal; exact IH]. Qed.

Lemma length_app_s (a b : string) :
  String.length (a +:+ b) = String.length a + String.length b.
Proof. induction a as [|x a IH]; simpl; [reflexivity | f_equal; exact IH]. Qed.

(** *** Strings *)

Lemma parse_string_escape (s rest : string) :
  parse_string (escape s +:+ String dquote rest) = Some (s, rest).
Proof.
  induction s as [|c s IH]; [reflexivity|].
  change (escape (String c s)) with (escape_char c +:+ escape s).
  rewrite app_assoc_s.
  destruct c as [[] [] [] [] [] [] [] []];
    cbn -[parse_string escape]; simpl; rewrite IH; reflexivity.
Qed.

Lemma parse_string_quote (s rest : string) :
  exists body, quote s +:+ rest = String dquote body
               /\ parse_string body = Some (s, rest).
Proof.
  exists (escape s +:+ String dquote rest). split.
  - unfold quote. simpl. rewrite app_assoc_s. reflexivity.
  - apply parse_string_escape.
Qed.

(** *** Numbers *)

Lemma closes_ends_number (rest : string) : closes rest -> ends_number rest.
Proof.
  destruct rest as [|c r]; simpl; [trivial|].
  intros [-> | [-> | ->]]; split; reflexivity.
Qed.

Lemma string_of_uint_digits (d : Decimal.uint) :
  digit_string (NilEmpty.string_of_uint d).
Proof. induction d; simpl; auto. Qed.

Lemma span_digits_app (ds rest : string) :
  digit_string ds -> ends_number rest -> span_digits (ds +:+ rest) = (ds, rest).
Proof.
  intros Hd Hr. induction ds as [|c ds IH]; simpl.
  - destruct rest as [|c r]; [reflexivity|]. destruct Hr as [Hc _].
    simpl. rewrite Hc. reflexivity.
  - destruct Hd as [Hc Hd]. rewrite Hc, (IH Hd). reflexivity.
Qed.

Lemma to_uint_normal (n : N) : Decimal.unorm (N.to_uint n) = N.to_uint n.
Proof.
  rewrite <- (DecimalN.Unsigned.to_of (N.to_uint n)).
  rewrite DecimalN.Unsigned.of_to. reflexivity.
Qed.

Lemma to_uint_nonnil (n : N) : N.to_uint n <> Decimal.Nil.
Proof.
  destruct n; simpl; [discriminate | apply DecimalPos.Unsigned.to_uint_nonnil].
Qed.

Lemma digits_unfold (n : N) : digits n = NilEmpty.string_of_uint (N.to_uint n).
Proof.
  unfold digits, NilZero.string_of_uint.
  pose proof (to_uint_nonnil n). destruct (N.to_uint n); [contradiction | reflexivity ..].
Qed.

Lemma digits_no_leading_zero (n : N) : leading_zero (digits n) = false.
Proof.
  rewrite digits_unfold. pose proof (to_uint_normal n) as Hn.
  destruct (N.to_uint n) as [|d| | | | | | | | |]; simpl;
    try reflexivity; try (destruct (NilEmpty.string_of_uint _); reflexivity).
  destruct d; try reflexivity; exfalso;
    rewrite DecimalFacts.unorm_D0 in Hn;
    match type of Hn with
    | Decimal.unorm ?u = _ =>
        assert (Hne : u <> Decimal.Nil) by discriminate;
        pose proof (DecimalFacts.nb_digits_unorm u Hne) as Hle;
        rewrite Hn in Hle; simpl in Hle; lia
    end.
Qed.

Lemma digits_head (n : N) :
  exists c r, digits n = String c r /\ is_digit c = true.
Proof.
  rewrite digits_unfold. pose proof (to_uint_nonnil n) as Hn.
  pose proof (string_of_uint_digits (N.to_uint n)) as Hd.
  destruct (N.to_uint n); [contradiction | ..]; simpl in *; eauto.
Qed.

Lemma parse_nat_digits (n : N) (rest : string) :
  ends_number rest -> parse_nat (digits n +:+ rest) = Some (n, rest).
Proof.
  intros Hr. unfold parse_nat.
  rewrite span_digits_app;
    [| rewrite digits_unfold; apply string_of_uint_digits | exact Hr].
  rewrite digits_no_leading_zero.
  assert (Hf : fraction_follows rest = false)
    by (destruct rest; [reflexivity | apply Hr]).
  rewrite Hf. simpl. unfold digits.
  rewrite NilZero.usu by apply to_uint_nonnil.
  rewrite DecimalN.Unsigned.of_to. reflexivity.
Qed.

Lemma digit_not_minus (c : ascii) : is_digit c = true -> Ascii.eqb c "-" = false.
Proof. destruct c as [[] [] [] [] [] [] [] []]; vm_compute; congruence. Qed.

Lemma parse_number_to_string (n : Z) (rest : string) :
  ends_number rest ->
  parse_number (number_to_string n +:+ rest) = Some (n, rest).
Proof.
  intros Hr. destruct n as [|p|p].
  - change (number_to_string 0) with (digits 0).
    unfold parse_number. change (digits 0 +:+ rest) with (String "0" rest).
    cbn [Ascii.eqb Bool.eqb]. change (String "0" rest) with (digits 0 +:+ rest).
    rewrite parse_nat_digits by exact Hr. reflexivity.
  - unfold number_to_string, parse_number.
    destruct (digits_head (N.pos p)) as (c & r & Hd & Hc).
    pose proof (parse_nat_digits (N.pos p) rest Hr) as Hp.
    rewrite Hd in *. simpl. rewrite (digit_not_minus c Hc).
    simpl in Hp. rewrite Hp. reflexivity.
  - unfold number_to_string, parse_number. simpl.
    rewrite parse_nat_digits by exact Hr. reflexivity.
Qed.

(** *** Values *)

Lemma number_head (n : Z) :
  exists c r, number_to_string n = String c r
              /\ (is_digit c || Ascii.eqb c "-") = true.
Proof.
  destruct n as [|p|p]; simpl.
  - exists "0"%char, EmptyString. split; reflexivity.
  - destruct (digits_head (N.pos p)) as (c & r & Hd & Hc).
    exists c, r. rewrite Hc. split; [exact Hd | reflexivity].
  - eexists _, _. split; reflexivity.
Qed.

Lemma number_char_plain (c : ascii) :
  (is_digit c || Ascii.eqb c "-") = true ->
  is_ws c = false /\ Ascii.eqb c "]" = false /\ Ascii.eqb c "}" = false.
Proof. destruct c as [[] [] [] [] [] [] [] []]; vm_compute; intuition congruence. Qed.

(** A serialised value starts with a character that is neither whitespace
    nor a closing bracket or brace. *)
Lemma stringify_head (v : value) :
  exists c r, stringify v = String c r
              /\ is_ws c = false
              /\ Ascii.eqb c "]" = false /\ Ascii.eqb c "}" = false.
Proof.
  destruct v as [|[]|n|s|elems|props]; simpl;
    try (eexists _, _; repeat split; reflexivity).
  destruct (number_head n) as (c & r & Hn & Hc).
  exists c, r. split; [exact Hn | apply number_char_plain, Hc].
Qed.

Lemma skip_ws_plain (c : ascii) (r : string) :
  is_ws c = false -> skip_ws (String c r) = String c r.
Proof. intros H. simpl. rewrite H. reflexivity. Qed.

Lemma parse_elements_stringify (es : list value) :
  Forall reads_back es -> forall e fuel rest,
  reads_back e -> need_all (e :: es) <= fuel ->
  parse_elements fuel (commas (map stringify (e :: es)) +:+ String "]" rest)
  = Some (e :: es, rest).
Proof.
  induction 1 as [|e' es He' Hes IH]; intros e fuel rest He Hfuel.
  - unfold need_all in Hfuel. simpl in Hfuel.
    destruct fuel as [|fuel]; [lia|]. simpl.
    rewrite He by (simpl; trivial || lia || auto). reflexivity.
  - unfold need_all in Hfuel. simpl in Hfuel.
    destruct fuel as [|fuel]; [lia|].
    change (commas (map stringify (e :: e' :: es)))
      with (stringify e +:+ String "," (commas (map stringify (e' :: es)))).
    rewrite app_assoc_s.
    change (String "," (commas (map stringify (e' :: es))) +:+ String "]" rest)
      with (String "," (commas (map stringify (e' :: es)) +:+ String "]" rest)).
    cbn [parse_elements].
    rewrite He by (simpl; trivial || lia || auto).
    rewrite skip_ws_plain by reflexivity. rewrite Ascii.eqb_refl.
    rewrite IH; [reflexivity | exact He' | unfold need_all; simpl; lia].
Qed.

Lemma define_property_fresh (key : string) (v : value)
    (acc : list (string * value)) :
  JS.arr_includes (map fst acc) key = false ->
  define_property key v acc = acc ++ [(key, v)].
Proof.
  induction acc as [|[k w] acc IH]; simpl; [reflexivity|].
  rewrite String.eqb_sym. destruct (String.eqb k key); simpl; [discriminate|].
  intros H. rewrite (IH H). reflexivity.
Qed.

Lemma arr_includes_app (l1 l2 : list string) (x : string) :
  JS.arr_includes (l1 ++ l2) x = JS.arr_includes l1 x || JS.arr_includes l2 x.
Proof. unfold JS.arr_includes. apply existsb_app. Qed.

Lemma fresh_keys_snoc (seen keys : list string) (k : string) :
  fresh_keys seen (k :: keys) = true -> fresh_keys (seen ++ [k]) keys = true.
Proof.
  revert seen k. induction keys as [|k' keys IH]; intros seen k; [reflexivity|].
  intros H. simpl in H. repeat rewrite andb_true_iff in H.
  destruct H as [[Hk Hkk] [[Hk' Hkk'] Hrest]].
  rewrite negb_true_iff in *.
  apply orb_false_elim in Hkk. destruct Hkk as [Hne Hkk].
  cbn [fresh_keys]. rewrite arr_includes_app, Hk', Hkk'. simpl.
  rewrite String.eqb_sym, Hne. simpl. apply IH. simpl.
  rewrite Hk, Hkk, Hrest. reflexivity.
Qed.

Lemma parse_members_stringify (ps : list (string * value)) :
  Forall (fun p => reads_back (snd p)) ps -> forall p acc fuel rest,
  reads_back (snd p) -> need_members (p :: ps) <= fuel ->
  fresh_keys (map fst acc) (map fst (p :: ps)) = true ->
  parse_members fuel
    (commas (map (fun p => quote (fst p) +:+ String ":" (stringify (snd p)))
                 (p :: ps)) +:+ String "}" rest) acc
  = Some (acc ++ p :: ps, rest).
Proof.
  induction 1 as [|p' ps Hp' Hps IH]; intros [key v] acc fuel rest Hv Hfuel Hfresh;
    unfold need_members in Hfuel; simpl in Hfuel;
    (destruct fuel as [|fuel]; [lia|]);
    assert (Hkey : JS.arr_includes (map fst acc) key = false)
      by (simpl in Hfresh; repeat rewrite andb_true_iff in Hfresh;
          destruct Hfresh as [[Hk _] _]; apply negb_true_iff, Hk).
  - cbn [map commas fst snd].
    unfold quote at 1. cbn [String.append]. repeat rewrite app_assoc_s.
    cbn [String.append]. cbn [parse_members].
    rewrite skip_ws_plain by reflexivity.
    change (negb (Ascii.eqb dquote dquote)) with false. cbn iota.
    rewrite parse_string_escape. rewrite skip_ws_plain by reflexivity.
    change (negb (Ascii.eqb ":" ":")) with false. cbn iota.
    rewrite Hv by (simpl; trivial || lia || auto).
    rewrite skip_ws_plain by reflexivity.
    change (Ascii.eqb "}" ",") with false. change (Ascii.eqb "}" "}") with true.
    cbn iota. rewrite define_property_fresh by exact Hkey. reflexivity.
  - change (commas (map (fun p => quote (fst p) +:+ String ":" (stringify (snd p)))
                        ((key, v) :: p' :: ps)))
      with ((quote key +:+ String ":" (stringify v)) +:+
            String "," (commas (map (fun p => quote (fst p) +:+ String ":" (stringify (snd p)))
                                    (p' :: ps)))).
    unfold quote at 1. cbn [String.append]. repeat rewrite app_assoc_s.
    cbn [String.append]. cbn [parse_members].
    rewrite skip_ws_plain by reflexivity.
    change (negb (Ascii.eqb dquote dquote)) with false. cbn iota.
    rewrite parse_string_escape. rewrite skip_ws_plain by reflexivity.
    change (negb (Ascii.eqb ":" ":")) with false. cbn iota.
    rewrite Hv by (simpl; trivial || lia || auto).
    rewrite skip_ws_plain by reflexivity.
    change (Ascii.eqb "," ",") with true. cbn iota.
    rewrite define_property_fresh by exact Hkey.
    rewrite IH.
    + rewrite <- app_assoc. reflexivity.
    + exact Hp'.
    + unfold need_members. simpl. lia.
    + rewrite map_app. apply fresh_keys_snoc. exact Hfresh.
Qed.

Lemma forallb_Forall_imp {A : Type} (f : A -> bool) (P : A -> Prop) (l : list A) :
  Forall (fun x => f x = true -> P x) l -> forallb f l = true -> Forall P l.
Proof.
  induction 1 as [|x l Hx Hl IH]; simpl; [constructor|].
  intros H. apply andb_true_iff in H. destruct H as [Hfx Hfl].
  constructor; auto.
Qed.

(** Every well-formed value is read back from its serialisation, whatever
    closes it, with any fuel of at least [need v]. *)
Lemma parse_value_stringify (v : value) :
  well_formed v = true -> reads_back v.
Proof.
  induction v as [|b|n|s|elems IH|props IH] using value_nested_ind;
    intros Hwf fuel rest Hfuel Hrest;
    (destruct fuel as [|fuel]; [simpl in Hfuel; lia|]).
  - reflexivity.
  - destruct b; reflexivity.
  - cbn [stringify]. destruct (number_head n) as (c & r & Hn & Hc).
    pose proof (parse_number_to_string n rest (closes_ends_number _ Hrest)) as Hp.
    destruct (number_char_plain c Hc) as (Hws & _).
    rewrite Hn in *. cbn [String.append] in *. cbn [parse_value].
    rewrite skip_ws_plain by exact Hws. rewrite Hc, Hp. reflexivity.
  - cbn [stringify]. unfold quote. cbn [String.append]. rewrite app_assoc_s.
    cbn [String.append parse_value]. rewrite skip_ws_plain by reflexivity.
    change (is_digit dquote || Ascii.eqb dquote "-") with false.
    change (Ascii.eqb dquote dquote) with true. cbn iota.
    rewrite parse_string_escape. reflexivity.
  - cbn [well_formed] in Hwf. pose proof (forallb_Forall_imp _ _ _ IH Hwf) as Hall.
    destruct elems as [|e es]; [reflexivity|].
    inversion Hall as [|? ? He Hes]; subst.
    cbn [stringify]. cbn [String.append]. rewrite app_assoc_s.
    cbn [String.append parse_value]. rewrite skip_ws_plain by reflexivity.
    change (is_digit "[" || Ascii.eqb "[" "-") with false.
    change (Ascii.eqb "[" dquote) with false.
    change (Ascii.eqb "[" "[") with true. cbn iota.
    rewrite (parse_elements_stringify es Hes e fuel rest He)
      by (cbn [need] in Hfuel; unfold need_all; lia).
    destruct (stringify_head e) as (c & r & Hc & Hws & Hbr & _).
    destruct es as [|e' es].
    + cbn [map commas]. rewrite Hc. cbn [String.append].
      rewrite skip_ws_plain by exact Hws. rewrite Hbr. reflexivity.
    + change (commas (map stringify (e :: e' :: es)))
        with (stringify e +:+ String "," (commas (map stringify (e' :: es)))).
      rewrite Hc. cbn [String.append].
      rewrite skip_ws_plain by exact Hws. rewrite Hbr. reflexivity.
  - cbn [well_formed] in Hwf. repeat rewrite andb_true_iff in Hwf.
    destruct Hwf as [[Hfresh _] Hwf].
    pose proof (forallb_Forall_imp (fun p => well_formed (snd p))
                  (fun p => reads_back (snd p)) _ IH Hwf) as Hall.
    destruct props as [|[key v] ps]; [reflexivity|].
    inversion Hall as [|? ? Hv Hps]; subst.
    cbn [stringify]. cbn [String.append]. rewrite app_assoc_s.
    cbn [String.append parse_value]. rewrite skip_ws_plain by reflexivity.
    change (is_digit "{" || Ascii.eqb "{" "-") with false.
    change (Ascii.eqb "{" dquote) with false.
    change (Ascii.eqb "{" "[") with false.
    change (Ascii.eqb "{" "{") with true. cbn iota.
    rewrite (parse_members_stringify ps Hps (key, v) [] fuel rest Hv)
      by (cbn [need] in Hfuel; unfold need_members; lia || exact Hfresh).
    destruct ps as [|p' ps]; cbn [map commas fst snd]; unfold quote at 1;
      cbn [String.append]; rewrite skip_ws_plain by reflexivity; reflexivity.
Qed.

(** *** Fuel *)

Lemma need_all_length (elems : list value) :
  Forall (fun v => need v <= String.length (stringify v)) elems ->
  need_all elems <= String.length (commas (map stringify elems)) + 1.
Proof.
  unfold need_all. induction 1 as [|e es He Hes IH]; [simpl; lia|].
  destruct es as [|e' es]; [simpl; lia|].
  change (commas (map stringify (e :: e' :: es)))
    with (stringify e +:+ String "," (commas (map stringify (e' :: es)))).
  rewrite length_app_s. cbn [String.length].
  change (list_sum (map (fun e => S (need e)) (e :: e' :: es)))
    with (S (need e) + list_sum (map (fun e => S (need e)) (e' :: es))).
  lia.
Qed.

Lemma need_members_length (props : list (string * value)) :
  Forall (fun p => need (snd p) <= String.length (stringify (snd p))) props ->
  need_members props
  <= String.length
       (commas (map (fun p => quote (fst p) +:+ String ":" (stringify (snd p)))
                    props)) + 1.
Proof.
  unfold need_members. induction 1 as [|p ps Hp Hps IH]; [simpl; lia|].
  destruct ps as [|p' ps].
  - cbn [map commas list_sum fold_right]. rewrite length_app_s. simpl. lia.
  - change (commas (map (fun p => quote (fst p) +:+ String ":" (stringify (snd p)))
                        (p :: p' :: ps)))
      with ((quote (fst p) +:+ String ":" (stringify (snd p))) +:+
            String "," (commas (map (fun p => quote (fst p) +:+ String ":" (stringify (snd p)))
                                    (p' :: ps)))).
    rewrite !length_app_s. cbn [String.length].
    change (list_sum (map (fun p => S (need (snd p))) (p :: p' :: ps)))
      with (S (need (snd p)) + list_sum (map (fun p => S (need (snd p))) (p' :: ps))).
    lia.
Qed.

Lemma need_length (v : value) : need v <= String.length (stringify v).
Proof.
  induction v as [|b|n|s|elems IH|props IH] using value_nested_ind.
  - simpl. lia.
  - destruct b; simpl; lia.
  - cbn [stringify]. destruct (number_head n) as (c & r & Hn & _).
    rewrite Hn. simpl. lia.
  - simpl. lia.
  - pose proof (need_all_length elems IH) as H. unfold need_all in H.
    cbn [need stringify String.length]. rewrite length_app_s.
    change (String.length "]") with 1. lia.
  - pose proof (need_members_length props IH) as H. unfold need_members in H.
    cbn [need stringify String.length]. rewrite length_app_s.
    change (String.length "}") with 1. lia.
Qed.

Lemma app_nil_s (s : string) : s +:+ EmptyString = s.
Proof. induction s as [|c s IH]; simpl; [reflexivity | f_equal; exact IH]. Qed.

(** [JSON.parse(JSON.stringify(v))] gives [v] back. *)
Lemma parse_stringify (v : value) :
  well_formed v = true -> parse (stringify v) = Normal v.
Proof.
  intros Hwf. unfold parse.
  pose proof (parse_value_stringify v Hwf
                (S (2 * String.length (stringify v))) EmptyString) as H.
  rewrite app_nil_s in H. rewrite H; [reflexivity | | exact I].
  pose proof (need_length v). lia.
Qed.

(** A serialisation is never the empty string. *)
Lemma stringify_truthy (v : value) : JS.truthy (stringify v) = true.
Proof.
  destruct (stringify_head v) as (c & r & Hc & _). rewrite Hc. reflexivity.
Qed.

End JSONFacts.

(* ===================================================================== *)
(** ** Persistence                                                       *)
(* ===================================================================== *)

Lemma strings_well_formed (l : list string) :
  forallb JSON.well_formed (map JSON.Str l) = true.
Proof. induction l; simpl; auto. Qed.

Lemma related_well_formed (l : list Related.t) :
  forallb (fun r => JS.isSafeInteger (Related.id r)) l = true ->
  forallb JSON.well_formed (map related_value l) = true.
Proof.
  induction l as [|r l IH]; simpl; [reflexivity|].
  intros H. apply andb_true_iff in H. destruct H as [Hr Hl].
  rewrite Hr, (IH Hl). reflexivity.
Qed.

Lemma notes_value_well_formed (l : list Note.t) :
  forallb well_formed_note l = true ->
  JSON.well_formed (notes_value l) = true.
Proof.
  unfold notes_value. cbn [JSON.well_formed].
  induction l as [|n l IH]; [reflexivity|].
  cbn [forallb map]. intros H. apply andb_true_iff in H. destruct H as [Hn Hl].
  rewrite (IH Hl), andb_true_r.
  unfold well_formed_note in Hn. apply andb_true_iff in Hn. destruct Hn as [Hid Hrel].
  unfold note_value. cbn [JSON.well_formed map fst snd forallb].
  rewrite Hid, strings_well_formed, (related_well_formed _ Hrel). reflexivity.
Qed.

Lemma map_injective {A B : Type} (f : A -> B) :
  (forall x y, f x = f y -> x = y) ->
  forall l l', map f l = map f l' -> l = l'.
Proof.
  intros Hf. induction l as [|x l IH]; intros [|y l'] H; simpl in H;
    try discriminate; [reflexivity|].
  injection H as Hxy Hl. f_equal; auto.
Qed.

Lemma related_value_injective (r r' : Related.t) :
  related_value r = related_value r' -> r = r'.
Proof. destruct r, r'. unfold related_value. simpl. intros H. injection H as -> ->. reflexivity. Qed.

Lemma note_value_injective (n n' : Note.t) :
  note_value n = note_value n' -> n = n'.
Proof.
  destruct n as [i c t tg rl], n' as [i' c' t' tg' rl']. unfold note_value. simpl.
  intros H. injection H as -> -> -> Htags Hrel. f_equal.
  - apply (map_injective JSON.Str); [|exact Htags]. intros x y Hxy. injection Hxy as ->. reflexivity.
  - apply (map_injective related_value related_value_injective), Hrel.
Qed.

(** C5. Saving a well-formed sequence of notes and loading it again yields
    the sequence that was saved, and the stored form determines every field
    ([id], [content], [timestamp], [tags], [related]) of every note. *)
Theorem save_load_roundtrip (l : list Note.t) (storage : gmap string string) :
  forallb well_formed_note l = true ->
  loadNotes (saveNotes (notes_value l) storage) = (Normal (notes_value l), [])
  /\ (forall l', notes_value l' = notes_value l -> l' = l).
Proof.
  intros Hwf. split.
  - unfold loadNotes, saveNotes. rewrite lookup_insert_eq.
    rewrite JSONFacts.stringify_truthy.
    rewrite JSONFacts.parse_stringify by (apply notes_value_well_formed, Hwf).
    reflexivity.
  - intros l' H. unfold notes_value in H. injection H as H.
    apply (map_injective note_value note_value_injective), H.
Qed.

Lemma save_load_roundtrip_witness :
  let l := [ Note.mk 1700000000001 "elephants have a project"
               "2023-11-14T22:13:20.001Z" ["projects"; "work"]
               [Related.mk 1700000000000 "Team meeting about the elephants..."];
             Note.mk 1700000000000 "Team meeting about the elephants"
               "2023-11-14T22:13:20.000Z" ["meetings"; "work"] [] ] in
  loadNotes (saveNotes (notes_value l) ∅) = (Normal (notes_value l), [])
  /\ (forall l', notes_value l' = notes_value l -> l' = l).
Proof.
  intros l. apply (save_load_roundtrip l ∅). reflexivity.
Defined.

(** C6. Loading never raises: it always returns a value, and when the blob
    is missing or its content does not parse, that value is the empty
    sequence (the error goes to [console.error] only). *)
Theorem loadNotes_fails_soft (storage : gmap string string) :
  (exists v log, loadNotes storage = (Normal v, log))
  /\ (missing storage \/ unparseable storage ->
      fst (loadNotes storage) = Normal (JSON.Array [])
      /\ Forall (fun line => fst line = "Error loading notes:")
                (snd (loadNotes storage))).
Proof.
  unfold loadNotes, missing, unparseable. split.
  - destruct (storage !! STORAGE_KEY) as [text|]; [|eauto].
    destruct (JS.truthy text); [|eauto].
    destruct (JSON.parse text); eauto.
  - intros [-> | (text & e & -> & ->)]; [split; [reflexivity | constructor]|].
    destruct (JS.truthy text); split; try reflexivity; repeat constructor.
Qed.

Lemma loadNotes_fails_soft_witness :
  fst (loadNotes {[ STORAGE_KEY := "{oops" ]}) = Normal (JSON.Array [])
  /\ Forall (fun line => fst line = "Error loading notes:")
            (snd (loadNotes {[ STORAGE_KEY := "{oops" ]})).
Proof.
  apply (proj2 (loadNotes_fails_soft {[ STORAGE_KEY := "{oops" ]})).
  right. exists "{oops", SyntaxError. split; reflexivity.
Defined.

(* ===================================================================== *)
(** ** The save handler                                                  *)
(* ===================================================================== *)

Lemma trim_blank (s : string) : blank s -> JS.trim s = EmptyString.
Proof.
  unfold JS.trim. induction s as [|c s IH]; simpl; [reflexivity|].
  intros [Hc Hs]. rewrite Hc. apply IH, Hs.
Qed.

(** C9. Saving while the text is empty or whitespace only leaves the state
    as it is: the handler calls no setter, so no note is built, the
    collection is the same and nothing is written to the storage. *)
Theorem blank_save_is_noop (st : State) (now : Z) (isoNow : string) :
  blank (currentNote st) ->
  handleNoteSave now isoNow st = [] /\ step st (Save now isoNow) = st.
Proof.
  intros Hb. assert (H : handleNoteSave now isoNow st = []).
  { unfold handleNoteSave. rewrite (trim_blank _ Hb). reflexivity. }
  split; [exact H|]. unfold step. rewrite H. reflexivity.
Qed.

Lemma blank_save_is_noop_witness :
  let st := mkState [Note.mk 7 "kept" "2024-01-01T00:00:00.000Z" [] []]
                    (String " " (String "010" (String "009" EmptyString))) false ∅ in
  handleNoteSave 8 "2024-01-02T00:00:00.000Z" st = []
  /\ step st (Save 8 "2024-01-02T00:00:00.000Z") = st.
Proof.
  intros st. apply (blank_save_is_noop st). simpl. repeat split; reflexivity.
Defined.

Lemma step_ids (st : State) (ev : event) :
  ids (step st ev) = ids st
  \/ exists now isoNow, ev = Save now isoNow /\ ids (step st ev) = now :: ids st.
Proof.
  destruct ev as [text|now isoNow]; [left; reflexivity|].
  unfold step, handleNoteSave.
  destruct (JS.truthy (JS.trim (currentNote st))); [|left; reflexivity].
  right. exists now, isoNow. split; reflexivity.
Qed.

Lemma run_ids (events : list event) (st : State) :
  exists created,
    ids (run events st) = created ++ ids st /\ incl created (save_times events).
Proof.
  revert st. induction events as [|ev events IH]; intros st.
  - exists []. split; [reflexivity | intros x []].
  - unfold run. cbn [fold_left]. destruct (IH (step st ev)) as (created & Hc & Hi).
    unfold run in Hc. rewrite Hc.
    destruct (step_ids st ev) as [-> | (now & isoNow & -> & ->)].
    + exists created. split; [reflexivity|].
      destruct ev; simpl; [exact Hi | apply incl_tl, Hi].
    + exists (created ++ [now]). split; [rewrite <- app_assoc; reflexivity|].
      simpl in *. intros x Hx. apply in_app_or in Hx. destruct Hx as [Hx | [<- | []]].
      * right. apply Hi, Hx.
      * left. reflexivity.
Qed.

Lemma descending_NoDup (l : list Z) : StronglySorted Z.gt l -> List.NoDup l.
Proof.
  induction 1 as [|x l Hl IH Hx]; constructor; [|exact IH].
  intros Hin. rewrite List.Forall_forall in Hx. specialize (Hx x Hin). lia.
Qed.

Lemma run_descending (events : list event) (st : State) (floor : Z) :
  StronglySorted Z.gt (ids st) ->
  Forall (fun i => (i <= floor)%Z) (ids st) ->
  clock_increases floor events ->
  StronglySorted Z.gt (ids (run events st)).
Proof.
  revert st floor. induction events as [|ev events IH]; intros st floor Hs Hf Hc.
  - exact Hs.
  - unfold run. cbn [fold_left]. fold (run events (step st ev)).
    destruct (step_ids st ev) as [Hsame | (now & isoNow & -> & Hnew)].
    + destruct ev as [text|now isoNow].
      * apply (IH _ floor); [rewrite Hsame; exact Hs | rewrite Hsame; exact Hf | exact Hc].
      * destruct Hc as [Hlt Hc].
        apply (IH _ now); [rewrite Hsame; exact Hs | | exact Hc].
        rewrite Hsame. eapply List.Forall_impl; [|exact Hf]. simpl. intros; lia.
    + destruct Hc as [Hlt Hc]. apply (IH _ now); [| |exact Hc]; rewrite Hnew.
      * constructor; [exact Hs|]. eapply List.Forall_impl; [|exact Hf]. simpl. intros; lia.
      * constructor; [lia|]. eapply List.Forall_impl; [|exact Hf]. simpl. intros; lia.
Qed.

(** X19. When the ids of the store are strictly decreasing from the newest
    note to the oldest and none is above [floor], and every save of the
    session reads a clock value above [floor] and above the reading of the
    save before it, the ids of the store are still strictly decreasing at
    the end of the session, hence pairwise distinct, and every id the
    session added is one of the clock readings of its saves. *)
Theorem ids_unique_when_clock_increases (events : list event) (st : State)
    (floor : Z) :
  StronglySorted Z.gt (ids st) ->
  Forall (fun i => (i <= floor)%Z) (ids st) ->
  clock_increases floor events ->
  (exists created,
      ids (run events st) = created ++ ids st
      /\ incl created (save_times events))
  /\ StronglySorted Z.gt (ids (run events st))
  /\ List.NoDup (ids (run events st)).
Proof.
  intros Hs Hf Hc. split; [apply run_ids|].
  pose proof (run_descending events st floor Hs Hf Hc) as H.
  split; [exact H | apply descending_NoDup, H].
Qed.

Lemma ids_unique_when_clock_increases_witness :
  let events := [ Typing "Team meeting about the elephants";
                  Save 1700000000000 "2023-11-14T22:13:20.000Z";
                  Typing "elephants have a project";
                  Save 1700000000001 "2023-11-14T22:13:20.001Z" ] in
  (exists created,
      ids (run events fresh) = created ++ ids fresh
      /\ incl created (save_times events))
  /\ StronglySorted Z.gt (ids (run events fresh))
  /\ List.NoDup (ids (run events fresh)).
Proof.
  intros events. apply (ids_unique_when_clock_increases events fresh 0).
  - simpl. constructor.
  - simpl. constructor.
  - simpl. lia.
Defined.

(** C4. The code at the failing input: two saves that read the same clock
    value give two notes of the store the same id, so the ids are not
    unique, and the cards of the capture view are rendered with the same
    [key] twice. *)
Theorem same_clock_reading_gives_duplicate_ids :
  let events := [ Typing "first thought";
                  Save 1700000000000 "2023-11-14T22:13:20.000Z";
                  Typing "second thought";
                  Save 1700000000000 "2023-11-14T22:13:20.000Z" ] in
  map Note.content (notes (run events fresh))
  = ["second thought"; "first thought"]
  /\ ids (run events fresh) = [1700000000000; 1700000000000]%Z
  /\ ~ List.NoDup (ids (run events fresh))
  /\ card_keys (run events fresh) EmptyString []
     = [1700000000000; 1700000000000]%Z.
Proof.
  intros events.
  assert (H : ids (run events fresh) = [1700000000000; 1700000000000]%Z)
    by reflexivity.
  split; [reflexivity|]. split; [exact H|]. split; [|reflexivity].
  rewrite H. intros Hnd. inversion Hnd as [|? ? Hnot _]; subst.
  apply Hnot. left. reflexivity.
Qed.

(* ********************************************************************* *)
(** * Part III. Further properties of the program *)
(* ********************************************************************* *)

(* ===================================================================== *)
(** ** Tag bar *)
(* ===================================================================== *)

Lemma sort_strings_In (arr : list string) (x : string) :
  In x (sort_strings arr) <-> In x arr.
Proof.
  unfold sort_strings.
  split; apply Permutation_in; [|symmetry]; apply merge_sort_Permutation.
Qed.

(** X1. The tag bar lists exactly the tags carried by some note, each once,
    in ascending order. *)
Theorem allTags_spec (store : list Note.t) :
  (forall tag,
      In tag (allTags store)
      <-> exists note, In note store /\ In tag (Note.tags note))
  /\ List.NoDup (allTags store)
  /\ Sorted String.le (allTags store).
Proof.
  unfold allTags. split; [|split].
  - intros tag. rewrite sort_strings_In, add_all_In, in_flat_map. simpl. tauto.
  - eapply Permutation_NoDup.
    + symmetry. apply merge_sort_Permutation.
    + apply add_all_NoDup. constructor.
  - apply Sorted_merge_sort. apply _.
Qed.

Lemma allTags_In (store : list Note.t) (tag : string) :
  In tag (allTags store)
  <-> exists note, In note store /\ In tag (Note.tags note).
Proof.
  unfold allTags. rewrite sort_strings_In, add_all_In, in_flat_map. simpl. tauto.
Qed.

Lemma filteredNotes_In (store : list Note.t) (searchQuery : string)
    (selectedTags : list string) (note : Note.t) :
  In note (filteredNotes store searchQuery selectedTags)
  <-> In note store
      /\ TextCriterion searchQuery note /\ TagCriterion selectedTags note.
Proof.
  unfold filteredNotes. rewrite filter_In. cbv zeta.
  rewrite andb_true_iff, matchesSearch_spec, matchesTags_spec. reflexivity.
Qed.

Lemma TextCriterion_empty (note : Note.t) : TextCriterion EmptyString note.
Proof.
  apply matchesSearch_spec. simpl. rewrite includes_empty. reflexivity.
Qed.

(** X2. Every tag of the tag bar, selected alone with an empty search,
    shows at least one note, and shows only notes that carry it. *)
Theorem offered_tag_selects_notes (store : list Note.t) (tag : string) :
  In tag (allTags store) ->
  filteredNotes store EmptyString [tag] <> []
  /\ Forall (fun note => In tag (Note.tags note))
            (filteredNotes store EmptyString [tag]).
Proof.
  intros Hin. apply allTags_In in Hin. destruct Hin as (note & Hnote & Htag). split.
  - assert (H : In note (filteredNotes store EmptyString [tag])).
    { apply filteredNotes_In. split; [exact Hnote|]. split.
      - apply TextCriterion_empty.
      - right. exists tag. split; [left; reflexivity | exact Htag]. }
    destruct (filteredNotes store EmptyString [tag]); [contradiction | discriminate].
  - apply List.Forall_forall. intros n Hn. apply filteredNotes_In in Hn.
    destruct Hn as (_ & _ & [Hsel | (t & [<- | []] & Ht)]); [discriminate | exact Ht].
Qed.

Lemma offered_tag_selects_notes_witness :
  filteredNotes fruit_notes EmptyString ["fruit"] <> []
  /\ Forall (fun note => In "fruit" (Note.tags note))
            (filteredNotes fruit_notes EmptyString ["fruit"]).
Proof.
  apply (offered_tag_selects_notes fruit_notes "fruit").
  vm_compute. left. reflexivity.
Defined.

Lemma toggleTag_In (selectedTags : list string) (tag t : string) :
  In t (toggleTag selectedTags tag)
  <-> (t = tag /\ ~ In tag selectedTags) \/ (t <> tag /\ In t selectedTags).
Proof.
  unfold toggleTag. destruct (JS.arr_includes selectedTags tag) eqn:E.
  - apply arr_includes_spec in E. rewrite filter_In, negb_true_iff, String.eqb_neq.
    split; [intros [H1 H2]; right; auto | intros [[_ H] | [H1 H2]]; [contradiction | auto]].
  - assert (Hn : ~ In tag selectedTags)
      by (intros H; apply arr_includes_spec in H; congruence).
    rewrite in_app_iff. simpl. split.
    + intros [H | [<- | []]]; [|left; auto].
      right. split; [intros ->; contradiction | exact H].
    + intros [[-> _] | [_ H]]; auto.
Qed.

Lemma filter_NoDup {A : Type} (f : A -> bool) (l : list A) :
  List.NoDup l -> List.NoDup (List.filter f l).
Proof.
  induction 1 as [|x l Hx Hl IH]; simpl; [constructor|].
  destruct (f x); [|exact IH]. constructor; [|exact IH].
  intros H. apply filter_In in H. apply Hx, H.
Qed.

Lemma filter_absent (tag : string) (l : list string) :
  ~ In tag l -> List.filter (fun t => negb (String.eqb t tag)) l = l.
Proof.
  induction l as [|x l IH]; simpl; [reflexivity|]. intros H.
  destruct (String.eqb_spec x tag) as [->|Hne]; simpl.
  - exfalso. apply H. left. reflexivity.
  - f_equal. apply IH. intros Hin. apply H. right. exact Hin.
Qed.

Lemma toggleTag_NoDup (selectedTags : list string) (tag : string) :
  List.NoDup selectedTags -> List.NoDup (toggleTag selectedTags tag).
Proof.
  intros Hnd. unfold toggleTag.
  destruct (JS.arr_includes selectedTags tag) eqn:E; [apply filter_NoDup, Hnd|].
  pose proof (set_add_NoDup tag selectedTags Hnd) as H.
  unfold JS.set_add in H. rewrite E in H. exact H.
Qed.

(** X3. Clicking a tag button flips the membership of that tag in the
    selection and of no other tag; a selection without duplicates stays
    without duplicates, and a second click gives back the same set of
    selected tags. *)
Theorem toggleTag_spec (selectedTags : list string) (tag : string) :
  List.NoDup selectedTags ->
  (forall t,
      In t (toggleTag selectedTags tag)
      <-> (t = tag /\ ~ In tag selectedTags) \/ (t <> tag /\ In t selectedTags))
  /\ List.NoDup (toggleTag selectedTags tag)
  /\ Permutation (toggleTag (toggleTag selectedTags tag) tag) selectedTags.
Proof.
  intros Hnd. split; [intros t; apply toggleTag_In|].
  split; [apply toggleTag_NoDup, Hnd|].
  apply Stdlib.Sorting.Permutation.NoDup_Permutation; [apply toggleTag_NoDup, toggleTag_NoDup, Hnd | exact Hnd |].
  intros t. rewrite !toggleTag_In.
  destruct (string_dec t tag) as [->|Hne];
    destruct (in_dec string_dec tag selectedTags); tauto.
Qed.

Lemma toggleTag_spec_witness :
  (forall t,
      In t (toggleTag ["work"; "ideas"] "work")
      <-> (t = "work" /\ ~ In "work" ["work"; "ideas"])
          \/ (t <> "work" /\ In t ["work"; "ideas"]))
  /\ List.NoDup (toggleTag ["work"; "ideas"] "work")
  /\ Permutation (toggleTag (toggleTag ["work"; "ideas"] "work") "work")
                 ["work"; "ideas"].
Proof.
  apply (toggleTag_spec ["work"; "ideas"] "work").
  repeat constructor; simpl; intuition discriminate.
Defined.

(* ===================================================================== *)
(** ** Query filter *)
(* ===================================================================== *)

Lemma toLowerCase_app (a b : string) :
  JS.toLowerCase (a +:+ b) = JS.toLowerCase a +:+ JS.toLowerCase b.
Proof. induction a as [|c a IH]; simpl; [reflexivity | f_equal; exact IH]. Qed.

Lemma split_app_sep (sep : ascii) (a b : string) :
  JS.split sep (a +:+ String sep b) = JS.split sep a ++ JS.split sep b.
Proof.
  induction a as [|c a IH]; simpl.
  - rewrite Ascii.eqb_refl. reflexivity.
  - destruct (Ascii.eqb c sep); simpl in *; rewrite IH; [reflexivity|].
    pose proof (split_nonempty sep a) as Hn.
    destruct (JS.split sep a); [contradiction | reflexivity].
Qed.

Lemma filter_and_then {A : Type} (f g h : A -> bool) (l : list A) :
  List.filter (fun x => f x && g x && h x) l
  = List.filter (fun x => g x && h x) (List.filter (fun x => f x && h x) l).
Proof.
  induction l as [|x l IH]; simpl; [reflexivity|].
  destruct (f x) eqn:Ef, (g x) eqn:Eg, (h x) eqn:Eh; simpl;
    rewrite ?Eg, ?Eh; simpl; rewrite IH; reflexivity.
Qed.

(** X4. Search terms are conjunctive: searching for two phrases joined by a
    space gives what searching for the second phrase gives on the result of
    searching for the first. *)
Theorem filteredNotes_join (store : list Note.t) (q1 q2 : string)
    (selectedTags : list string) :
  filteredNotes store (q1 +:+ String " " q2) selectedTags
  = filteredNotes (filteredNotes store q1 selectedTags) q2 selectedTags.
Proof.
  unfold filteredNotes. cbv zeta.
  rewrite <- (filter_and_then
    (fun note => forallb (fun term => JS.includes (JS.toLowerCase (Note.content note)) term)
                         (JS.split " " (JS.toLowerCase q1)))
    (fun note => forallb (fun term => JS.includes (JS.toLowerCase (Note.content note)) term)
                         (JS.split " " (JS.toLowerCase q2)))
    (fun note => Nat.eqb (List.length selectedTags) 0
                 || existsb (fun tag => JS.arr_includes (Note.tags note) tag) selectedTags)).
  apply filter_ext. intros note.
  rewrite toLowerCase_app.
  change (JS.toLowerCase (String " " q2)) with (String " " (JS.toLowerCase q2)).
  rewrite split_app_sep, forallb_app. reflexivity.
Qed.

Lemma filteredNotes_incl_tags (store : list Note.t) (searchQuery : string)
    (sel sel' : list string) :
  (forall note, TagCriterion sel note -> TagCriterion sel' note) ->
  incl (filteredNotes store searchQuery sel) (filteredNotes store searchQuery sel').
Proof.
  intros H note Hin. apply filteredNotes_In in Hin. apply filteredNotes_In.
  destruct Hin as (Hs & Ht & Hg). auto.
Qed.

(** X5. Selected tags are disjunctive: once a tag is selected, selecting one
    more tag keeps every note that was shown; and whatever is selected, the
    notes shown are among those shown with no tag selected. *)
Theorem filteredNotes_more_tags (store : list Note.t) (searchQuery : string)
    (selectedTags : list string) (tag : string) :
  selectedTags <> [] ->
  incl (filteredNotes store searchQuery selectedTags)
       (filteredNotes store searchQuery (selectedTags ++ [tag]))
  /\ incl (filteredNotes store searchQuery selectedTags)
          (filteredNotes store searchQuery []).
Proof.
  intros Hne. split; apply filteredNotes_incl_tags; intros note.
  - intros [Hsel | (t & Hin & Ht)]; [contradiction|].
    right. exists t. split; [apply in_or_app; left; exact Hin | exact Ht].
  - intros _. left. reflexivity.
Qed.

Lemma filteredNotes_more_tags_witness :
  incl (filteredNotes fruit_notes "an" ["fruit"])
       (filteredNotes fruit_notes "an" (["fruit"] ++ ["work"]))
  /\ incl (filteredNotes fruit_notes "an" ["fruit"])
          (filteredNotes fruit_notes "an" []).
Proof.
  apply (filteredNotes_more_tags fruit_notes "an" ["fruit"] "work").
  discriminate.
Defined.

Lemma lower_char_idempotent (c : ascii) :
  JS.lower_char (JS.lower_char c) = JS.lower_char c.
Proof. destruct c as [[] [] [] [] [] [] [] []]; reflexivity. Qed.

Lemma toLowerCase_idempotent (s : string) :
  JS.toLowerCase (JS.toLowerCase s) = JS.toLowerCase s.
Proof.
  induction s as [|c s IH]; simpl; [reflexivity|].
  rewrite lower_char_idempotent, IH. reflexivity.
Qed.

(** X6. Letter case of the input does not matter: the search phrase, the
    text whose related notes are sought and the text whose tags are
    suggested can each be replaced by its lower-cased form. *)
Theorem lower_case_input_is_the_same (store : list Note.t) (text : string)
    (selectedTags : list string) :
  filteredNotes store (JS.toLowerCase text) selectedTags
  = filteredNotes store text selectedTags
  /\ findRelatedNotes store (JS.toLowerCase text) = findRelatedNotes store text
  /\ suggestTags (JS.toLowerCase text) = suggestTags text.
Proof.
  unfold filteredNotes, findRelatedNotes, suggestTags.
  rewrite toLowerCase_idempotent. repeat split.
Qed.


(* ===================================================================== *)
(** ** Tag suggester and related-note finder *)
(* ===================================================================== *)

Lemma app_assoc_string (a b c : string) : (a +:+ b) +:+ c = a +:+ (b +:+ c).
Proof. induction a as [|x a IH]; simpl; [reflexivity | f_equal; exact IH]. Qed.

Lemma Substring_trans (a b c : string) :
  Substring a b -> Substring b c -> Substring a c.
Proof.
  intros (p1 & s1 & ->) (p2 & s2 & ->).
  exists (p2 +:+ p1), (s1 +:+ s2). rewrite !app_assoc_string. reflexivity.
Qed.

Lemma Substring_toLowerCase (a b : string) :
  Substring a b -> Substring (JS.toLowerCase a) (JS.toLowerCase b).
Proof.
  intros (p & s & ->). exists (JS.toLowerCase p), (JS.toLowerCase s).
  rewrite !toLowerCase_app. reflexivity.
Qed.

(** X7. Text around a content never removes a suggestion: the tags
    suggested for a text are suggested for every text that contains it. *)
Theorem suggestTags_monotone (content longer : string) :
  Substring content longer ->
  incl (suggestTags content) (suggestTags longer).
Proof.
  intros Hsub tag Hin. apply suggestTags_In in Hin. apply suggestTags_In.
  destruct Hin as (keyword & tags & Hk & Hs & Ht). exists keyword, tags.
  split; [exact Hk|]. split; [|exact Ht].
  eapply Substring_trans; [exact Hs | apply Substring_toLowerCase, Hsub].
Qed.

Lemma suggestTags_monotone_witness :
  incl (suggestTags "team meeting")
       (suggestTags "Notes of the team meeting on research").
Proof.
  apply (suggestTags_monotone "team meeting"
           "Notes of the team meeting on research").
  exists "Notes of the ", " on research". reflexivity.
Defined.

Lemma filter_none {A : Type} (f : A -> bool) (l : list A) :
  Forall (fun x => f x = false) l -> List.filter f l = [].
Proof.
  induction 1 as [|x l Hx Hl IH]; simpl; [reflexivity|]. rewrite Hx. exact IH.
Qed.

(** X8. Short words never relate notes: when no word of the lower-cased
    content (between single spaces) has more than 4 characters, nothing is
    found, whatever the corpus; so it is for the empty content. *)
Theorem findRelatedNotes_needs_long_word (store : list Note.t)
    (content : string) :
  Forall (fun word => String.length word <= 4)
         (JS.split " " (JS.toLowerCase content)) ->
  findRelatedNotes store content = [].
Proof.
  intros Hshort. unfold findRelatedNotes. cbv zeta.
  rewrite filter_none; [reflexivity|].
  apply List.Forall_forall. intros note _.
  rewrite filter_none; [reflexivity|].
  eapply List.Forall_impl; [|exact Hshort]. simpl. intros word Hlen.
  apply andb_false_iff. left. apply Nat.ltb_ge. exact Hlen.
Qed.

Lemma findRelatedNotes_needs_long_word_witness :
  findRelatedNotes
    [Note.mk 5 "call mum and dad" "2024-01-01T00:00:00.000Z" [] []]
    "Call Mum now" = [].
Proof.
  apply (findRelatedNotes_needs_long_word _ "Call Mum now").
  simpl. repeat constructor.
Defined.

Lemma RelatedTo_symmetric (a b : Note.t) :
  RelatedTo (Note.content a) b -> RelatedTo (Note.content b) a.
Proof.
  intros (words & noteWords & word & Hw & Hn & Hin & Hlen & Hmem).
  exists noteWords, words, word. auto.
Qed.

Lemma findRelatedNotes_single (note : Note.t) (content : string) :
  findRelatedNotes [note] content <> [] <-> RelatedTo content note.
Proof.
  rewrite <- related_test_spec. unfold findRelatedNotes. cbv zeta. simpl.
  destruct (Nat.ltb 0 _); simpl; split; congruence.
Qed.

(** X9. Being related does not depend on which of two notes is the new one:
    a note is found for the content of another exactly when the other is
    found for the content of the first. *)
Theorem findRelatedNotes_symmetric (a b : Note.t) :
  findRelatedNotes [b] (Note.content a) <> []
  <-> findRelatedNotes [a] (Note.content b) <> [].
Proof.
  rewrite !findRelatedNotes_single. split; apply RelatedTo_symmetric.
Qed.

(* ===================================================================== *)
(** ** Save handler and keyboard shortcut *)
(* ===================================================================== *)

Lemma trimEnd_empty (s : string) : JS.trimEnd s = EmptyString -> blank s.
Proof.
  induction s as [|c s IH]; simpl; [trivial|].
  destruct (JS.trimEnd s); [|discriminate].
  destruct (JS.isWhiteSpace c); [|discriminate]. auto.
Qed.

Lemma trimStart_blank (s : string) : blank (JS.trimStart s) -> blank s.
Proof.
  induction s as [|c s IH]; simpl; [trivial|].
  destruct (JS.isWhiteSpace c) eqn:E; [auto | simpl; rewrite E; trivial].
Qed.

Lemma trim_truthy (s : string) : JS.truthy (JS.trim s) = true <-> ~ blank s.
Proof.
  split.
  - intros H Hb. rewrite (trim_blank s Hb) in H. discriminate.
  - intros H. destruct (JS.trim s) eqn:E; [|reflexivity].
    exfalso. apply H, trimStart_blank, trimEnd_empty, E.
Qed.

(** The note that a save builds. *)
Lemma step_save_nonblank (st : State) (now : Z) (isoNow : string) :
  ~ blank (currentNote st) ->
  step st (Save now isoNow)
  = let newNote :=
      Note.mk now (currentNote st) isoNow (suggestTags (currentNote st))
              (findRelatedNotes (notes st) (currentNote st)) in
    mkState (newNote :: notes st) EmptyString true
            (saveNotes (notes_value (newNote :: notes st)) (localStorage st)).
Proof.
  intros H. apply trim_truthy in H. unfold step, handleNoteSave. rewrite H.
  reflexivity.
Qed.

Lemma step_cases (st : State) (ev : event) :
  (notes (step st ev) = notes st /\ localStorage (step st ev) = localStorage st)
  \/ exists now isoNow,
       ev = Save now isoNow /\ ~ blank (currentNote st)
       /\ step st ev
          = mkState
              (Note.mk now (currentNote st) isoNow (suggestTags (currentNote st))
                       (findRelatedNotes (notes st) (currentNote st)) :: notes st)
              EmptyString true
              (saveNotes
                 (notes_value
                    (Note.mk now (currentNote st) isoNow
                             (suggestTags (currentNote st))
                             (findRelatedNotes (notes st) (currentNote st))
                     :: notes st))
                 (localStorage st)).
Proof.
  destruct ev as [text|now isoNow]; [left; split; reflexivity|].
  destruct (JS.truthy (JS.trim (currentNote st))) eqn:E.
  - right. exists now, isoNow. apply trim_truthy in E.
    split; [reflexivity|]. split; [exact E|]. apply step_save_nonblank, E.
  - left. unfold step, handleNoteSave. rewrite E. split; reflexivity.
Qed.

(** X10. A save with a text that is not blank adds exactly one note at the
    head of the store: its id is the clock reading, its content is the text
    as typed (not trimmed), and the text area is emptied. *)
Theorem nonblank_save_adds_note (st : State) (now : Z) (isoNow : string) :
  ~ blank (currentNote st) ->
  exists note,
    notes (step st (Save now isoNow)) = note :: notes st
    /\ Note.id note = now
    /\ Note.content note = currentNote st
    /\ Note.timestamp note = isoNow
    /\ currentNote (step st (Save now isoNow)) = EmptyString
    /\ showSuggestions (step st (Save now isoNow)) = true.
Proof.
  intros H. rewrite (step_save_nonblank st now isoNow H). cbv zeta.
  eexists. repeat split.
Qed.

Lemma nonblank_save_adds_note_witness :
  exists note,
    notes (step (mkState [] "  buy milk " false ∅)
                (Save 1700000000000 "2023-11-14T22:13:20.000Z"))
    = note :: []
    /\ Note.id note = 1700000000000%Z
    /\ Note.content note = "  buy milk "
    /\ Note.timestamp note = "2023-11-14T22:13:20.000Z"
    /\ currentNote (step (mkState [] "  buy milk " false ∅)
                         (Save 1700000000000 "2023-11-14T22:13:20.000Z"))
       = EmptyString
    /\ showSuggestions (step (mkState [] "  buy milk " false ∅)
                             (Save 1700000000000 "2023-11-14T22:13:20.000Z"))
       = true.
Proof.
  apply (nonblank_save_adds_note (mkState [] "  buy milk " false ∅)).
  simpl. intros [_ [_ [H _]]]. discriminate H.
Defined.

(** X11. The key handler saves on Shift+Enter only: it prevents the default
    action exactly for Enter with Shift, and it calls a setter exactly when,
    in addition, the text is not blank. *)
Theorem handleKeyDown_spec (e : KeyboardEvent) (now : Z) (isoNow : string)
    (st : State) :
  (fst (handleKeyDown e now isoNow st) = true
   <-> key e = "Enter" /\ shiftKey e = true)
  /\ (snd (handleKeyDown e now isoNow st) <> []
      <-> key e = "Enter" /\ shiftKey e = true /\ ~ blank (currentNote st)).
Proof.
  unfold handleKeyDown. split; split.
  - destruct (String.eqb_spec (key e) "Enter") as [Hk|Hk];
      destruct (shiftKey e); simpl; intros H; try discriminate. auto.
  - intros [-> ->]. reflexivity.
  - destruct (String.eqb_spec (key e) "Enter") as [Hk|Hk];
      destruct (shiftKey e); simpl; intros H; try congruence.
    unfold handleNoteSave in H.
    destruct (JS.truthy (JS.trim (currentNote st))) eqn:E; [|congruence].
    apply trim_truthy in E. auto.
  - intros (-> & -> & Hb). simpl. apply trim_truthy in Hb.
    unfold handleNoteSave. rewrite Hb. discriminate.
Qed.

(* ===================================================================== *)
(** ** Sessions *)
(* ===================================================================== *)

(** What every step keeps, every session keeps. *)
Lemma run_invariant (Inv : State -> Prop) :
  (forall st ev, Inv st -> Inv (step st ev)) ->
  forall events st, Inv st -> Inv (run events st).
Proof.
  intros Hstep. induction events as [|ev events IH]; intros st H; [exact H|].
  apply IH, Hstep, H.
Qed.

(** X12. A session never changes or drops a note: the store at its end is
    the store at its start with the new notes in front, at most one per
    save. *)
Theorem run_keeps_older_notes (events : list event) (st : State) :
  exists newer,
    notes (run events st) = newer ++ notes st
    /\ List.length newer <= List.length (save_times events).
Proof.
  revert st. induction events as [|ev events IH]; intros st.
  - exists []. split; [reflexivity | simpl; lia].
  - destruct (IH (step st ev)) as (newer & Hn & Hl).
    change (run (ev :: events) st) with (run events (step st ev)). rewrite Hn.
    destruct (step_cases st ev) as [[Hsame _] | (now & isoNow & -> & _ & Hstep)].
    + exists newer. rewrite Hsame. split; [reflexivity|].
      destruct ev; simpl; lia.
    + rewrite Hstep. cbn [notes]. eexists (newer ++ [_]).
      rewrite <- app_assoc. split; [reflexivity|].
      rewrite length_app. simpl. lia.
Qed.

Lemma step_store_ok (st : State) (ev : event) :
  store_ok (notes st) -> store_ok (notes (step st ev)).
Proof.
  intros H. destruct (step_cases st ev) as [[-> _] | (now & isoNow & _ & Hb & ->)];
    [exact H|]. cbn [notes store_ok Note.tags Note.related Note.content]. auto.
Qed.

(** X13. Through any session the derived fields stay what the code computed
    when the note was saved: every note carries the tags suggested for its
    content and the related entries found among the notes older than it,
    and no stored note is blank. *)
Theorem run_store_ok (events : list event) (st : State) :
  store_ok (notes st) -> store_ok (notes (run events st)).
Proof.
  apply (run_invariant (fun st => store_ok (notes st))). apply step_store_ok.
Qed.

Lemma run_store_ok_witness :
  store_ok
    (notes (run [ Typing "Team meeting about the elephants";
                  Save 1700000000000 "2023-11-14T22:13:20.000Z";
                  Typing "elephants have a project";
                  Save 1700000000001 "2023-11-14T22:13:20.001Z" ] fresh)).
Proof.
  apply (run_store_ok _ fresh). simpl. exact I.
Defined.

Lemma In_firstn {A : Type} (n : nat) (l : list A) (x : A) :
  In x (firstn n l) -> In x l.
Proof.
  intros H. rewrite <- (firstn_skipn n l). apply in_or_app. left. exact H.
Qed.

Lemma findRelatedNotes_ids (store : list Note.t) (content : string) :
  incl (map Related.id (findRelatedNotes store content)) (map Note.id store).
Proof.
  unfold findRelatedNotes. rewrite map_map. cbn [Related.id].
  intros i Hi. apply in_map_iff in Hi. destruct Hi as (note & <- & Hin).
  apply In_firstn, filter_In in Hin. apply in_map, Hin.
Qed.

Lemma suggestTags_incl_vocabulary (content : string) :
  incl (suggestTags content) vocabulary.
Proof.
  intros tag Hin. apply suggestTags_In in Hin.
  destruct Hin as (keyword & tags & Hk & _ & Ht).
  unfold keywords in Hk. simpl in Hk.
  repeat (destruct Hk as [Hk | Hk];
          [injection Hk as <- <-; simpl in Ht; unfold vocabulary; simpl; intuition|]).
  contradiction.
Qed.

Lemma store_ok_app (newer older : list Note.t) (note : Note.t) :
  store_ok (newer ++ note :: older) ->
  Note.tags note = suggestTags (Note.content note)
  /\ Note.related note = findRelatedNotes older (Note.content note).
Proof.
  induction newer as [|n newer IH]; simpl.
  - intros (Ht & Hr & _). auto.
  - intros (_ & _ & _ & H). apply IH, H.
Qed.

Lemma store_ok_tags (store : list Note.t) :
  store_ok store -> incl (allTags store) vocabulary.
Proof.
  intros Hok tag Hin. apply allTags_In in Hin. destruct Hin as (note & Hn & Ht).
  apply in_split in Hn. destruct Hn as (newer & older & ->).
  destruct (store_ok_app _ _ _ Hok) as [Htags _]. rewrite Htags in Ht.
  apply (suggestTags_incl_vocabulary _ _ Ht).
Qed.

(** X14. In a store built by saves the tag bar offers tags of the nine-tag
    vocabulary only, and every related entry of a note points at a note
    that is in the store and older than it, at most three per note. *)
Theorem session_store_is_consistent (events : list event) (st : State) :
  store_ok (notes st) ->
  incl (allTags (notes (run events st))) vocabulary
  /\ (forall newer note older,
        notes (run events st) = newer ++ note :: older ->
        List.length (Note.related note) <= 3
        /\ incl (map Related.id (Note.related note)) (map Note.id older)).
Proof.
  intros H.
  assert (Hok : store_ok (notes (run events st)))
    by (apply (run_invariant (fun st => store_ok (notes st)));
        [apply step_store_ok | exact H]).
  split; [apply store_ok_tags, Hok|].
  intros newer note older E. rewrite E in Hok.
  destruct (store_ok_app _ _ _ Hok) as [_ ->]. split.
  - unfold findRelatedNotes. rewrite length_map. apply firstn_le_length.
  - apply findRelatedNotes_ids.
Qed.

Lemma session_store_is_consistent_witness :
  let events := [ Typing "Team meeting about the elephants";
                  Save 1700000000000 "2023-11-14T22:13:20.000Z";
                  Typing "elephants have a project";
                  Save 1700000000001 "2023-11-14T22:13:20.001Z" ] in
  incl (allTags (notes (run events fresh))) vocabulary
  /\ (forall newer note older,
        notes (run events fresh) = newer ++ note :: older ->
        List.length (Note.related note) <= 3
        /\ incl (map Related.id (Note.related note)) (map Note.id older)).
Proof.
  intros events. apply (session_store_is_consistent events fresh). simpl. exact I.
Defined.

(* ===================================================================== *)
(** ** Persistence through a session *)
(* ===================================================================== *)

Lemma findRelatedNotes_safe (store : list Note.t) (content : string) :
  forallb well_formed_note store = true ->
  forallb (fun r => JS.isSafeInteger (Related.id r))
          (findRelatedNotes store content) = true.
Proof.
  intros Hwf. apply forallb_forall. intros r Hr.
  unfold findRelatedNotes in Hr. apply in_map_iff in Hr.
  destruct Hr as (note & <- & Hin). apply In_firstn, filter_In in Hin.
  destruct Hin as [Hin _]. rewrite forallb_forall in Hwf.
  specialize (Hwf note Hin). unfold well_formed_note in Hwf.
  apply andb_true_iff in Hwf. apply Hwf.
Qed.

Lemma synced_load (st : State) :
  synced st -> forallb well_formed_note (notes st) = true ->
  loadNotes (localStorage st) = (Normal (notes_value (notes st)), []).
Proof.
  intros Hs Hwf. unfold loadNotes. rewrite Hs. cbv zeta.
  rewrite JSONFacts.stringify_truthy.
  rewrite JSONFacts.parse_stringify by (apply notes_value_well_formed, Hwf).
  reflexivity.
Qed.

Lemma run_synced (events : list event) (st : State) :
  synced st -> forallb well_formed_note (notes st) = true ->
  Forall (fun now => JS.isSafeInteger now = true) (save_times events) ->
  synced (run events st)
  /\ forallb well_formed_note (notes (run events st)) = true.
Proof.
  revert st. induction events as [|ev events IH]; intros st Hs Hwf Hsafe;
    [split; assumption|].
  change (run (ev :: events) st) with (run events (step st ev)).
  destruct (step_cases st ev) as [[Hn Hl] | (now & isoNow & -> & _ & Hstep)].
  - apply IH.
    + unfold synced. rewrite Hn, Hl. exact Hs.
    + rewrite Hn. exact Hwf.
    + destruct ev; simpl in Hsafe; [exact Hsafe|]. inversion Hsafe; assumption.
  - simpl in Hsafe. inversion Hsafe as [|? ? Hnow Hrest]; subst.
    apply IH; [| |exact Hrest]; rewrite Hstep.
    + unfold synced, saveNotes. cbn [localStorage notes]. apply lookup_insert_eq.
    + cbn [notes forallb]. rewrite Hwf, andb_true_r.
      unfold well_formed_note. cbn [Note.id Note.related].
      rewrite Hnow, (findRelatedNotes_safe _ _ Hwf). reflexivity.
Qed.

(** X15. After every session the storage holds the store: when the storage
    held the notes at the start, and the clock readings of the saves are
    safe integers as the ids of the store are, loading at the end returns
    the notes of the component and reports no error. *)
Theorem session_is_persisted (events : list event) (st : State) :
  synced st -> forallb well_formed_note (notes st) = true ->
  Forall (fun now => JS.isSafeInteger now = true) (save_times events) ->
  loadNotes (localStorage (run events st))
  = (Normal (notes_value (notes (run events st))), []).
Proof.
  intros Hs Hwf Hsafe. destruct (run_synced events st Hs Hwf Hsafe) as [Hs' Hwf'].
  apply synced_load; assumption.
Qed.

Lemma session_is_persisted_witness :
  let events := [ Typing "Team meeting about the elephants";
                  Save 1700000000000 "2023-11-14T22:13:20.000Z";
                  Typing "   ";
                  Save 1700000000001 "2023-11-14T22:13:20.001Z";
                  Typing "elephants have a project";
                  Save 1700000000002 "2023-11-14T22:13:20.002Z" ] in
  loadNotes (localStorage (run events fresh))
  = (Normal (notes_value (notes (run events fresh))), []).
Proof.
  intros events. apply (session_is_persisted events fresh).
  - reflexivity.
  - reflexivity.
  - simpl. repeat constructor.
Defined.



(** X17. Right after a save of a text that is not blank, the suggestions
    card shows the tags suggested for that text and the previews of the
    notes found related to it among the notes stored before. *)
Theorem suggestionsCard_after_save (st : State) (now : Z) (isoNow : string) :
  ~ blank (currentNote st) ->
  suggestionsCard (step st (Save now isoNow))
  = Some (suggestTags (currentNote st),
          map Related.preview (findRelatedNotes (notes st) (currentNote st))).
Proof.
  intros H. rewrite (step_save_nonblank st now isoNow H). reflexivity.
Qed.

Lemma suggestionsCard_after_save_witness :
  suggestionsCard
    (step (mkState [Note.mk 5 "elephants are huge" "2024-01-01T00:00:00.000Z" [] []]
                   "Project idea: I love elephants" false ∅)
          (Save 1700000000000 "2023-11-14T22:13:20.000Z"))
  = Some (suggestTags "Project idea: I love elephants",
          map Related.preview
              (findRelatedNotes
                 [Note.mk 5 "elephants are huge" "2024-01-01T00:00:00.000Z" [] []]
                 "Project idea: I love elephants")).
Proof.
  apply (suggestionsCard_after_save
           (mkState [Note.mk 5 "elephants are huge" "2024-01-01T00:00:00.000Z" [] []]
                    "Project idea: I love elephants" false ∅)).
  simpl. intros [H _]. discriminate H.
Defined.

Lemma step_other_keys (k : string) (st : State) (ev : event) :
  k <> STORAGE_KEY ->
  localStorage (step st ev) !! k = localStorage st !! k.
Proof.
  intros Hk. destruct (step_cases st ev) as [[_ ->] | (now & isoNow & _ & _ & ->)];
    [reflexivity|].
  cbn [localStorage]. unfold saveNotes. apply lookup_insert_ne. congruence.
Qed.

(** X18. A session writes to its own storage key only: every other key of
    the storage holds at the end what it held at the start. *)
Theorem run_keeps_other_keys (events : list event) (st : State) (k : string) :
  k <> STORAGE_KEY ->
  localStorage (run events st) !! k = localStorage st !! k.
Proof.
  intros Hk. revert st. induction events as [|ev events IH]; intros st;
    [reflexivity|].
  change (run (ev :: events) st) with (run events (step st ev)).
  rewrite IH. apply step_other_keys, Hk.
Qed.

Lemma run_keeps_other_keys_witness :
  let st := mkState [] EmptyString false {[ "theme" := "dark" ]} in
  let events := [ Typing "Team meeting";
                  Save 1700000000000 "2023-11-14T22:13:20.000Z" ] in
  localStorage (run events st) !! "theme" = localStorage st !! "theme".
Proof.
  intros st events. apply (run_keeps_other_keys events st "theme"). discriminate.
Defined.
